(** * Shop-floor update pipeline: classification, extraction, validation, upsert

    A shallow embedding of the text-update core of the shop-floor management
    server: the WhatsApp parser (utils/whatsappParser.js), the machine
    utilities and service (modules/shop-floor/utils.js, service.js), the order
    service (modules/orders/service.js) and the batch controllers.

    Text is modelled as [string] over 7-bit ASCII: case conversion, white
    space and the regular-expression classes are the ASCII ones, and bytes
    above 127 have no case, are not white space and are not word characters.
    Numbers are exact integers ([Z]).  The database table behind Prisma is a
    finite map from the unique business key to the row. *)

From Stdlib Require Import ZArith Ascii String List Bool Lia.
From stdpp Require Import base option gmap strings.

Local Open Scope string_scope.
Local Open Scope N_scope.

(* ===================================================================== *)
(** ** JavaScript string primitives (ASCII) *)
(* ===================================================================== *)

Module Js.

Definition code (c : ascii) : N := N_of_ascii c.

Definition in_range (lo hi : N) (c : ascii) : bool :=
  (lo <=? code c) && (code c <=? hi).

Definition is_lower (c : ascii) : bool := in_range 97 122 c.
Definition is_upper (c : ascii) : bool := in_range 65 90 c.
Definition is_digit (c : ascii) : bool := in_range 48 57 c.
Definition is_alpha (c : ascii) : bool := is_lower c || is_upper c.

(** [\w] : letters, digits and the underscore. *)
Definition is_word (c : ascii) : bool :=
  is_alpha c || is_digit c || (code c =? 95).

(** [\s] and the characters removed by [trim]: TAB, LF, VT, FF, CR, SPACE. *)
Definition is_space (c : ascii) : bool :=
  in_range 9 13 c || (code c =? 32).

(** Line terminators, which [.] does not match. *)
Definition is_newline (c : ascii) : bool :=
  (code c =? 10) || (code c =? 13).

Definition upper_char (c : ascii) : ascii :=
  if is_lower c then ascii_of_N (code c - 32) else c.

Definition lower_char (c : ascii) : ascii :=
  if is_upper c then ascii_of_N (code c + 32) else c.

Fixpoint map_chars (f : ascii -> ascii) (s : string) : string :=
  match s with
  | EmptyString => EmptyString
  | String c s' => String (f c) (map_chars f s')
  end.

Definition toUpperCase : string -> string := map_chars upper_char.
Definition toLowerCase : string -> string := map_chars lower_char.

(** [s.charAt(0)] : the first character as a string, or the empty string. *)
Definition charAt0 (s : string) : string :=
  match s with
  | EmptyString => EmptyString
  | String c _ => String c EmptyString
  end.

(** [s.slice(1)] *)
Definition slice1 (s : string) : string :=
  match s with
  | EmptyString => EmptyString
  | String _ s' => s'
  end.

(** [s.startsWith(p)] *)
Fixpoint startsWith (p s : string) : bool :=
  match p with
  | EmptyString => true
  | String a p' =>
      match s with
      | EmptyString => false
      | String b s' => Ascii.eqb a b && startsWith p' s'
      end
  end.

(** [s.includes(p)] : [p] occurs at some position of [s]. *)
Fixpoint includes (s p : string) : bool :=
  startsWith p s ||
  match s with
  | EmptyString => false
  | String _ s' => includes s' p
  end.

Fixpoint trimStart (s : string) : string :=
  match s with
  | EmptyString => EmptyString
  | String c s' => if is_space c then trimStart s' else s
  end.

(** Dropping trailing white space: a character is kept when it is not white
    space or when something is kept after it. *)
Fixpoint trimEnd (s : string) : string :=
  match s with
  | EmptyString => EmptyString
  | String c s' =>
      match trimEnd s' with
      | EmptyString => if is_space c then EmptyString else String c EmptyString
      | t => String c t
      end
  end.

Definition trim (s : string) : string := trimEnd (trimStart s).

Definition digit_val (c : ascii) : Z := Z.of_N (code c - 48).

(** [parseInt(s, 10)] on a string of decimal digits (the only strings the
    parsers hand to it are captures of [\d+]). *)
Definition parseInt10 (s : string) : Z :=
  (fix go (acc : Z) (s : string) : Z :=
     match s with
     | EmptyString => acc
     | String c s' => go (10 * acc + digit_val c)%Z s'
     end) 0%Z s.

(** Truthiness of a string: only the empty string is falsy. *)
Definition truthy (s : string) : bool :=
  match s with EmptyString => false | _ => true end.

End Js.

(* ===================================================================== *)
(** ** Backtracking regular expressions *)
(* ===================================================================== *)

(** The matcher follows the ECMAScript semantics: alternatives are tried left
    to right, a greedy quantifier tries one more iteration before the
    continuation and a lazy one the continuation first, an iteration that
    consumes nothing is rejected, and [match] returns the leftmost start
    position at which the pattern succeeds. *)

Module Regex.

Inductive regex : Type :=
| Eps
| Chr (p : ascii -> bool)
| Seq (r1 r2 : regex)
| Alt (r1 r2 : regex)
| Star (greedy : bool) (r : regex)
| Group (i : nat) (r : regex)
| Bol
| Eol
| WordB.

(** The state of a match in progress: the character before the current
    position, the text still to read, and the captures made so far (the most
    recent first). *)
Record mstate : Type := MState {
  prev : option ascii;
  rest : string;
  caps : list (nat * string)
}.

(** The text read between two positions of the same string. *)
Definition consumed (from to : string) : string :=
  substring 0 (String.length from - String.length to) from.

Definition orelse {A} (a b : option A) : option A :=
  match a with Some _ => a | None => b end.

Definition head_is_word (s : string) : bool :=
  match s with EmptyString => false | String c _ => Js.is_word c end.

Definition prev_is_word (p : option ascii) : bool :=
  match p with None => false | Some c => Js.is_word c end.

(** The iterations of a quantified sub-pattern; [body] runs the sub-pattern
    once.  An iteration has to consume something, so [fuel] above the length
    of the remaining text is never used up. *)
Fixpoint star_loop {A} (body : mstate -> (mstate -> option A) -> option A)
    (greedy : bool) (k : mstate -> option A) (fuel : nat) (st : mstate)
    {struct fuel} : option A :=
  match fuel with
  | O => k st
  | S fuel' =>
      let again :=
        body st (fun st' =>
          if (String.length (rest st') <? String.length (rest st))%nat
          then star_loop body greedy k fuel' st' else None) in
      if greedy then orelse again (k st) else orelse (k st) again
  end.

Fixpoint run {A} (r : regex) (st : mstate) (k : mstate -> option A) {struct r}
  : option A :=
  match r with
  | Eps => k st
  | Chr p =>
      match rest st with
      | EmptyString => None
      | String c s' =>
          if p c then k (MState (Some c) s' (caps st)) else None
      end
  | Seq r1 r2 => run r1 st (fun st1 => run r2 st1 k)
  | Alt r1 r2 => orelse (run r1 st k) (run r2 st k)
  | Star greedy r0 =>
      star_loop (fun st' k' => run r0 st' k') greedy k
                (S (String.length (rest st))) st
  | Group i r0 =>
      run r0 st (fun st' =>
        k (MState (prev st') (rest st')
                  ((i, consumed (rest st) (rest st')) :: caps st')))
  | Bol => match prev st with None => k st | Some _ => None end
  | Eol => match rest st with EmptyString => k st | _ => None end
  | WordB =>
      if xorb (prev_is_word (prev st)) (head_is_word (rest st))
      then k st else None
  end.

(** The result of [String.prototype.match] without the [g] flag. *)
Record mresult : Type := MResult {
  index : nat;
  before : string;      (* the text in front of the match *)
  matched : string;     (* element [0] of the match array *)
  groups : list (nat * string);
  after : string        (* the text behind the match *)
}.

(** Element [i] of the match array, [None] for [undefined]. *)
Fixpoint lookup_group (i : nat) (g : list (nat * string)) : option string :=
  match g with
  | [] => None
  | (j, s) :: g' => if Nat.eqb i j then Some s else lookup_group i g'
  end.

Definition group (i : nat) (m : mresult) : option string :=
  lookup_group i (groups m).

(** Try every start position from the left. [pre] is the text already
    skipped. *)
Fixpoint search (r : regex) (p : option ascii) (pre : string) (s : string)
  (idx : nat) {struct s} : option mresult :=
  match run r (MState p s []) Some with
  | Some st' =>
      Some (MResult idx pre (consumed s (rest st')) (caps st') (rest st'))
  | None =>
      match s with
      | EmptyString => None
      | String c s' => search r (Some c) (pre ++ String c EmptyString) s' (S idx)
      end
  end.

(** [s.match(r)] *)
Definition js_match (r : regex) (s : string) : option mresult :=
  search r None EmptyString s 0.

(** [r.test(s)] *)
Definition test (r : regex) (s : string) : bool :=
  match js_match r s with Some _ => true | None => false end.

(** [s.replace(r, '')] without the [g] flag: the first match is cut out. *)
Definition replace_empty (r : regex) (s : string) : string :=
  match js_match r s with
  | Some m => before m ++ after m
  | None => s
  end.

(** *** Pattern building blocks, all under the [i] flag *)

(** A literal character, compared without regard to case. *)
Definition ci (c : ascii) : regex :=
  Chr (fun x => Ascii.eqb (Js.upper_char x) (Js.upper_char c)).

Fixpoint lit (s : string) : regex :=
  match s with
  | EmptyString => Eps
  | String c EmptyString => ci c
  | String c s' => Seq (ci c) (lit s')
  end.

Definition digit : regex := Chr Js.is_digit.                 (* \d *)
Definition word : regex := Chr Js.is_word.                   (* \w *)
Definition space : regex := Chr Js.is_space.                 (* \s *)
Definition dot : regex := Chr (fun c => negb (Js.is_newline c)).  (* . *)
Definition alnum : regex :=                                   (* [A-Z0-9] /i *)
  Chr (fun c => Js.is_alpha c || Js.is_digit c).
Definition plus (r : regex) : regex := Seq r (Star true r).       (* r+ *)
Definition plus_lazy (r : regex) : regex := Seq r (Star false r). (* r+? *)
Definition opt (r : regex) : regex := Alt r Eps.                  (* r? *)

(** [[=:]?] *)
Definition sep : regex :=
  opt (Chr (fun c => Ascii.eqb c "="%char || Ascii.eqb c ":"%char)).

Fixpoint alts (rs : list regex) : regex :=
  match rs with
  | [] => Eps
  | [r] => r
  | r :: rs' => Alt r (alts rs')
  end.

End Regex.

Import Regex.

(* ===================================================================== *)
(** ** utils/whatsappParser.js *)
(* ===================================================================== *)

(** What a caller may pass where a message is expected. *)
Inductive jsval : Type :=
| JUndefined
| JNull
| JBool (b : bool)
| JNumber (n : Z)
| JString (s : string)
| JObject.

Inductive Intent : Type :=
| MACHINE_UPDATE
| SAFETY_UPDATE
| ORDER_UPDATE
| UNKNOWN.

Fixpoint seqs (rs : list regex) : regex :=
  match rs with
  | [] => Eps
  | [r] => r
  | r :: rs' => Seq r (seqs rs')
  end.

(** [x.charAt(0).toUpperCase() + x.slice(1).toLowerCase()] *)
Definition titleCase (x : string) : string :=
  Js.toUpperCase (Js.charAt0 x) ++ Js.toLowerCase (Js.slice1 x).

Module Parser.

(** [/^M\d+/i] *)
Definition re_machine_start : regex := seqs [Bol; ci "M"; plus digit].
(** [/ORD\d+/i] *)
Definition re_ord_digits : regex := seqs [lit "ORD"; plus digit].

Definition detectIntent (message : jsval) : Intent :=
  match message with
  | JString msg =>
      if negb (Js.truthy msg) then UNKNOWN
      else
        let upperMessage := Js.toUpperCase msg in
        if test re_machine_start (Js.trim msg) then MACHINE_UPDATE
        else if Js.includes upperMessage "SAFETY" then SAFETY_UPDATE
        else if Js.includes upperMessage "ORDER" || test re_ord_digits msg
             then ORDER_UPDATE
        else UNKNOWN
  | _ => UNKNOWN
  end.

Definition normalizeMachineStatus (status : string) : string :=
  let normalized := titleCase status in
  if Js.includes normalized "run" then "Running"
  else if Js.includes normalized "idle" then "Idle"
  else if Js.includes normalized "maintain" then "Maintenance"
  else if Js.includes normalized "error" || Js.includes normalized "down"
       then "Error"
  else normalized.

Definition normalizeOrderStage (stage : string) : string :=
  let normalized := titleCase stage in
  if Js.includes normalized "plan" then "Planning"
  else if Js.includes normalized "product" then "Production"
  else if Js.includes normalized "quality" || Js.includes normalized "qc"
       then "Quality"
  else if Js.includes normalized "pack" then "Packaging"
  else if Js.includes normalized "ship" then "Shipping"
  else if Js.includes normalized "complete" || Js.includes normalized "done"
       then "Completed"
  else normalized.

(** The object a parser returns once its [null] entries are deleted: an
    absent key is [None]. *)
Record ParsedMachine : Type := {
  pm_machine_id : string;
  pm_status : option string;
  pm_output : option Z;
  pm_error_message : option string;
  pm_operator : option string
}.

Record ParsedOrder : Type := {
  po_order_id : string;
  po_stage : option string;
  po_priority : option string;
  po_quantity : option Z;
  po_materials : option string;
  po_eta : option string;
  po_status : option string;
  po_assigned_to : option string
}.

(** [/M\d+/i] *)
Definition re_machine_id : regex := seqs [ci "M"; plus digit].
(** [/STATUS[=:]?\s*(\w+)/i] *)
Definition re_status_word : regex :=
  seqs [lit "STATUS"; sep; Star true space; Group 1 (plus word)].
(** [/OUTPUT[=:]?\s*(\d+)/i] *)
Definition re_output : regex :=
  seqs [lit "OUTPUT"; sep; Star true space; Group 1 (plus digit)].
(** [/ERROR[=:]?\s*(.+?)(?:\s+(?:OPERATOR|STATUS|OUTPUT)|$)/i] *)
Definition re_error : regex :=
  seqs [lit "ERROR"; sep; Star true space; Group 1 (plus_lazy dot);
        Alt (Seq (plus space)
                 (alts [lit "OPERATOR"; lit "STATUS"; lit "OUTPUT"]))
            Eol].
(** [/OPERATOR[=:]?\s*(.+?)$/i] *)
Definition re_operator : regex :=
  seqs [lit "OPERATOR"; sep; Star true space; Group 1 (plus_lazy dot); Eol].

(** [m ? f(m[i]) : null]; the patterns below set group [i] whenever they
    match. *)
Definition capture_map {A} (f : string -> A) (i : nat) (m : option mresult)
  : option A :=
  match m with
  | Some r => option_map f (group i r)
  | None => None
  end.

Definition parseMachineUpdate (message : jsval) : option ParsedMachine :=
  match message with
  | JString msg =>
      if negb (Js.truthy msg) then None
      else
        match js_match re_machine_id msg with
        | None => None
        | Some machineIdMatch =>
            Some {|
              pm_machine_id := Js.toUpperCase (matched machineIdMatch);
              pm_status :=
                capture_map normalizeMachineStatus 1
                            (js_match re_status_word msg);
              pm_output := capture_map Js.parseInt10 1 (js_match re_output msg);
              pm_error_message := capture_map Js.trim 1 (js_match re_error msg);
              pm_operator := capture_map Js.trim 1 (js_match re_operator msg)
            |}
        end
  | _ => None
  end.

(** [/ORD[A-Z0-9]+|\bORDER\s+([A-Z0-9]+)/i] *)
Definition re_order_id : regex :=
  Alt (seqs [lit "ORD"; plus alnum])
      (seqs [WordB; lit "ORDER"; plus space; Group 1 (plus alnum)]).
(** [/^ORDER\s+/i] *)
Definition re_order_prefix : regex := seqs [Bol; lit "ORDER"; plus space].
(** [/STAGE[=:]?\s*(\w+)/i] *)
Definition re_stage : regex :=
  seqs [lit "STAGE"; sep; Star true space; Group 1 (plus word)].
(** [/PRIORITY[=:]?\s*(Low|Medium|High|Urgent)/i] *)
Definition re_priority : regex :=
  seqs [lit "PRIORITY"; sep; Star true space;
        Group 1 (alts [lit "Low"; lit "Medium"; lit "High"; lit "Urgent"])].
(** [/QUANTITY[=:]?\s*(\d+)|QTY[=:]?\s*(\d+)/i] *)
Definition re_quantity : regex :=
  Alt (seqs [lit "QUANTITY"; sep; Star true space; Group 1 (plus digit)])
      (seqs [lit "QTY"; sep; Star true space; Group 2 (plus digit)]).
(** [/ETA[=:]?\s*([A-Za-z0-9\-\s]+)/i] *)
Definition re_eta : regex :=
  seqs [lit "ETA"; sep; Star true space;
        Group 1 (plus (Chr (fun c =>
          Js.is_alpha c || Js.is_digit c || Ascii.eqb c "-"%char
          || Js.is_space c)))].
(** [/MATERIALS[=:]?\s*(.+?)(?:\s+(?:STAGE|ETA|PRIORITY)|$)/i] *)
Definition re_materials : regex :=
  seqs [lit "MATERIALS"; sep; Star true space; Group 1 (plus_lazy dot);
        Alt (Seq (plus space) (alts [lit "STAGE"; lit "ETA"; lit "PRIORITY"]))
            Eol].
(** [/STATUS[=:]?\s*(Active|OnHold|Completed|Cancelled)/i] *)
Definition re_order_status : regex :=
  seqs [lit "STATUS"; sep; Star true space;
        Group 1 (alts [lit "Active"; lit "OnHold"; lit "Completed";
                       lit "Cancelled"])].
(** [/ASSIGNED[=:]?\s*(.+?)$/i] *)
Definition re_assigned : regex :=
  seqs [lit "ASSIGNED"; sep; Star true space; Group 1 (plus_lazy dot); Eol].

(** The order code: the match in upper case, without a leading "ORDER " and
    with "ORD" in front unless it is there already. *)
Definition order_id_of (m : mresult) : string :=
  let id := replace_empty re_order_prefix (Js.toUpperCase (matched m)) in
  if Js.startsWith "ORD" id then id else "ORD" ++ id.

(** [quantityMatch[1] || quantityMatch[2]] *)
Definition first_truthy (a b : option string) : option string :=
  match a with
  | Some s => if Js.truthy s then Some s else b
  | None => b
  end.

Definition parseOrderUpdate (message : jsval) : option ParsedOrder :=
  match message with
  | JString msg =>
      if negb (Js.truthy msg) then None
      else
        match js_match re_order_id msg with
        | None => None
        | Some orderIdMatch =>
            Some {|
              po_order_id := order_id_of orderIdMatch;
              po_stage :=
                capture_map normalizeOrderStage 1 (js_match re_stage msg);
              po_priority := capture_map titleCase 1 (js_match re_priority msg);
              po_quantity :=
                match js_match re_quantity msg with
                | Some m =>
                    option_map Js.parseInt10
                               (first_truthy (group 1 m) (group 2 m))
                | None => None
                end;
              po_materials := capture_map Js.trim 1 (js_match re_materials msg);
              po_eta := capture_map Js.trim 1 (js_match re_eta msg);
              po_status :=
                match js_match re_order_status msg with
                | Some m => option_map titleCase (group 1 m)
                | None => Some "Active"
                end;
              po_assigned_to :=
                capture_map Js.trim 1 (js_match re_assigned msg)
            |}
        end
  | _ => None
  end.

End Parser.

(* ===================================================================== *)
(** ** Update objects, results and the record store *)
(* ===================================================================== *)

(** A property of an update object: missing, [null], or a value. *)
Inductive field (A : Type) : Type :=
| Undefined
| Null
| Value (a : A).
Arguments Undefined {A}.
Arguments Null {A}.
Arguments Value {A} a.

(** Truthiness of a string property. *)
Definition truthy_field (f : field string) : bool :=
  match f with Value s => Js.truthy s | _ => false end.

(** [f === s] *)
Definition field_is (f : field string) (s : string) : bool :=
  match f with Value x => String.eqb x s | _ => false end.

(** [f || d] for a string property. *)
Definition field_or (f : field string) (d : string) : string :=
  match f with Value s => if Js.truthy s then s else d | _ => d end.

(** [f || null] for a string property. *)
Definition field_or_null (f : field string) : option string :=
  match f with Value s => if Js.truthy s then Some s else None | _ => None end.

(** [f ?? d] *)
Definition field_nullish {A} (f : field A) (d : A) : A :=
  match f with Value a => a | _ => d end.

(** [f ?? null] *)
Definition field_nullish_null {A} (f : field A) : option A :=
  match f with Value a => Some a | _ => None end.

Definition of_option {A} (o : option A) : field A :=
  match o with Some a => Value a | None => Undefined end.

Inductive error : Type :=
| InvalidStatus (s : string)
| InvalidStage (s : string)
| InvalidPriority (s : string)
| NullForRequired (column : string)
| UniqueViolation (column key : string)
| FailedToUpdate (key : string) (cause : error)
| ExpectedArray
| FailedBatch (cause : error).

Inductive result (A : Type) : Type :=
| Ok (a : A)
| Err (e : error).
Arguments Ok {A} a.
Arguments Err {A} e.

(** Sequencing of steps that may throw: [x ← r; k]. *)
Global Instance result_bind : MBind result := fun A B f r =>
  match r with Ok a => f a | Err e => Err e end.
Global Instance result_ret : MRet result := fun A a => Ok a.

(** [try { body } catch (error) { throw wrap(error) }] *)
Definition rethrow {A} (wrap : error -> error) (r : result A) : result A :=
  match r with Ok a => Ok a | Err e => Err (wrap e) end.


(** The Prisma client is a library, not code of the repository.  Its
    [upsert] is modelled on a table held as a finite map from the unique key
    to the row: an update leaves the columns of missing properties as they
    are, [null] is refused for a column the migration declares NOT NULL, and
    a key change onto another row's key is refused by the unique index.  The
    arguments are checked before the table is read. *)
Module Prisma.

Definition require {A} (column : string) (f : field A) : result unit :=
  match f with Null => Err (NullForRequired column) | _ => Ok tt end.

(** The new value of a required column. *)
Definition set_required {A} (f : field A) (old : A) : A :=
  match f with Value a => a | _ => old end.

(** The new value of a nullable column. *)
Definition set_nullable {A} (f : field A) (old : option A) : option A :=
  match f with Undefined => old | Null => None | Value a => Some a end.

Section Upsert.
Context {Row : Type}.
Variable key_of : Row -> string.
Variable column : string.

Definition upsert (key : string) (check : result unit) (patch : Row -> Row)
    (create : Row) (table : gmap string Row)
  : result (Row * gmap string Row) :=
  _ ← check;
  match table !! key with
  | Some row =>
      let row' := patch row in
      if String.eqb (key_of row') key
      then Ok (row', <[key := row']> table)
      else
        match table !! key_of row' with
        | Some _ => Err (UniqueViolation column (key_of row'))
        | None => Ok (row', <[key_of row' := row']> (delete key table))
        end
  | None => Ok (create, <[key := create]> table)
  end.
End Upsert.

End Prisma.

(* ===================================================================== *)
(** ** modules/shop-floor: utils.js and service.js *)
(* ===================================================================== *)

Module Machines.

(** A row of the [machines] table (the surrogate [id] is left out). *)
Record Machine : Type := {
  machine_id : string;
  name : string;
  status : string;
  output : Z;
  error_message : option string;
  operator : option string;
  last_updated : Z
}.

(** A machine update object. *)
Record MachineData : Type := {
  d_machine_id : field string;
  d_name : field string;
  d_status : field string;
  d_output : field Z;
  d_error_message : field string;
  d_operator : field string
}.

Definition with_error_message (d : MachineData) (e : field string) :=
  {| d_machine_id := d_machine_id d; d_name := d_name d;
     d_status := d_status d; d_output := d_output d;
     d_error_message := e; d_operator := d_operator d |}.

Definition with_output (d : MachineData) (o : field Z) :=
  {| d_machine_id := d_machine_id d; d_name := d_name d;
     d_status := d_status d; d_output := o;
     d_error_message := d_error_message d; d_operator := d_operator d |}.

Definition VALID_STATUSES : list string :=
  ["Running"; "Idle"; "Maintenance"; "Error"].

(** [VALID_STATUSES.includes(s)] *)
Definition list_includes (l : list string) (s : string) : bool :=
  existsb (String.eqb s) l.

(** [output !== undefined && output !== 0] *)
Definition output_given_nonzero (o : field Z) : bool :=
  match o with
  | Undefined => false
  | Null => true
  | Value z => negb (Z.eqb z 0)
  end.

Definition applyStatusValidation (data : MachineData) : MachineData :=
  let validated := data in
  let validated :=
    if field_is (d_status validated) "Error"
       && negb (truthy_field (d_error_message validated))
    then with_error_message validated (Value "Machine error detected")
    else validated in
  let validated :=
    if truthy_field (d_status validated)
       && negb (field_is (d_status validated) "Error")
       && truthy_field (d_error_message validated)
    then with_error_message validated Null
    else validated in
  let validated :=
    if field_is (d_status validated) "Idle"
       && output_given_nonzero (d_output validated)
    then with_output validated (Value 0%Z)
    else validated in
  validated.

(** [{ ...updateData, last_updated: new Date() }] applied to a row. *)
Definition patch (d : MachineData) (now : Z) (m : Machine) : Machine :=
  {| machine_id := Prisma.set_required (d_machine_id d) (machine_id m);
     name := Prisma.set_required (d_name d) (name m);
     status := Prisma.set_required (d_status d) (status m);
     output := Prisma.set_required (d_output d) (output m);
     error_message := Prisma.set_nullable (d_error_message d) (error_message m);
     operator := Prisma.set_nullable (d_operator d) (operator m);
     last_updated := now |}.

Definition check (d : MachineData) : result unit :=
  _ ← Prisma.require "machine_id" (d_machine_id d);
  _ ← Prisma.require "name" (d_name d);
  _ ← Prisma.require "status" (d_status d);
  Prisma.require "output" (d_output d).

Definition create (machineId : string) (d : MachineData) (now : Z) : Machine :=
  {| machine_id := machineId;
     name := field_or (d_name d) ("Machine " ++ machineId);
     status := field_or (d_status d) "Idle";
     output := field_nullish (d_output d) 0%Z;
     error_message := field_nullish_null (d_error_message d);
     operator := field_nullish_null (d_operator d);
     last_updated := now |}.

Definition updateMachine (now : Z) (machineId : string)
    (updateData : MachineData) (table : gmap string Machine)
  : result (Machine * gmap string Machine) :=
  rethrow (FailedToUpdate machineId)
    (if truthy_field (d_status updateData)
        && negb (list_includes VALID_STATUSES
                   (field_nullish (d_status updateData) ""))
     then Err (InvalidStatus (field_nullish (d_status updateData) ""))
     else
       let updateData := applyStatusValidation updateData in
       Prisma.upsert machine_id "machine_id" machineId
         (check updateData) (patch updateData now)
         (create machineId updateData now) table).

End Machines.

(** *** utils.js: the machine message parser of the HTTP controller *)

Module MachineUtils.

Import Parser.

(** [normalizeStatus], the same text as [normalizeMachineStatus]. *)
Definition normalizeStatus (status : string) : string :=
  let normalized := titleCase status in
  if Js.includes normalized "run" then "Running"
  else if Js.includes normalized "idle" then "Idle"
  else if Js.includes normalized "maintain" then "Maintenance"
  else if Js.includes normalized "error" || Js.includes normalized "down"
       then "Error"
  else normalized.

(** [/STATUS[=:]?\s*(\w+)|Status[=:]?\s*(\w+)/i] *)
Definition re_status2 : regex :=
  Alt (seqs [lit "STATUS"; sep; Star true space; Group 1 (plus word)])
      (seqs [lit "Status"; sep; Star true space; Group 2 (plus word)]).
(** [/OUTPUT[=:]?\s*(\d+)|Output[=:]?\s*(\d+)/i] *)
Definition re_output2 : regex :=
  Alt (seqs [lit "OUTPUT"; sep; Star true space; Group 1 (plus digit)])
      (seqs [lit "Output"; sep; Star true space; Group 2 (plus digit)]).
(** [/ERROR[=:]?\s*(.+?)(?:\s+OPERATOR|$)/i] *)
Definition re_error2 : regex :=
  seqs [lit "ERROR"; sep; Star true space; Group 1 (plus_lazy dot);
        Alt (Seq (plus space) (lit "OPERATOR")) Eol].

(** A match whose two groups are both unset would make the following method
    call throw, which the [catch] turns into [null]. *)
Definition either_group {A} (f : string -> A) (m : option mresult)
  : option (option A) :=
  match m with
  | None => Some None
  | Some r =>
      match first_truthy (group 1 r) (group 2 r) with
      | Some s => Some (Some (f s))
      | None => None
      end
  end.

Definition parseWhatsappMessage (message : jsval) : option ParsedMachine :=
  match message with
  | JString msg =>
      if negb (Js.truthy msg) then None
      else
        match js_match re_machine_id msg with
        | None => None
        | Some machineIdMatch =>
            status ← either_group (fun s => normalizeStatus (Js.trim s))
                                  (js_match re_status2 msg);
            output ← either_group Js.parseInt10 (js_match re_output2 msg);
            Some {|
              pm_machine_id := Js.toUpperCase (matched machineIdMatch);
              pm_status := status;
              pm_output := output;
              pm_error_message := capture_map Js.trim 1 (js_match re_error2 msg);
              pm_operator := capture_map Js.trim 1 (js_match re_operator msg)
            |}
        end
  | _ => None
  end.

End MachineUtils.

(* ===================================================================== *)
(** ** modules/orders/service.js *)
(* ===================================================================== *)

Module Orders.

(** A row of the [orders] table (the surrogate [id] is left out). *)
Record Order : Type := {
  order_id : string;
  customer_name : option string;
  stage : string;
  priority : string;
  quantity : Z;
  materials : option string;
  eta : option string;
  status : string;
  assigned_to : option string;
  created_at : Z;
  updated_at : Z
}.

(** An order update object. *)
Record OrderData : Type := {
  d_order_id : field string;
  d_customer_name : field string;
  d_stage : field string;
  d_priority : field string;
  d_quantity : field Z;
  d_materials : field string;
  d_eta : field string;
  d_status : field string;
  d_assigned_to : field string
}.

Definition VALID_STAGES : list string :=
  ["Planning"; "Production"; "Quality"; "Packaging"; "Shipping"; "Completed"].
Definition VALID_STATUSES : list string :=
  ["Active"; "OnHold"; "Completed"; "Cancelled"].
Definition VALID_PRIORITIES : list string :=
  ["Low"; "Medium"; "High"; "Urgent"].

(** [{ ...updateData, updated_at: new Date() }] applied to a row. *)
Definition patch (d : OrderData) (now : Z) (o : Order) : Order :=
  {| order_id := Prisma.set_required (d_order_id d) (order_id o);
     customer_name := Prisma.set_nullable (d_customer_name d) (customer_name o);
     stage := Prisma.set_required (d_stage d) (stage o);
     priority := Prisma.set_required (d_priority d) (priority o);
     quantity := Prisma.set_required (d_quantity d) (quantity o);
     materials := Prisma.set_nullable (d_materials d) (materials o);
     eta := Prisma.set_nullable (d_eta d) (eta o);
     status := Prisma.set_required (d_status d) (status o);
     assigned_to := Prisma.set_nullable (d_assigned_to d) (assigned_to o);
     created_at := created_at o;
     updated_at := now |}.

Definition check (d : OrderData) : result unit :=
  _ ← Prisma.require "order_id" (d_order_id d);
  _ ← Prisma.require "stage" (d_stage d);
  _ ← Prisma.require "priority" (d_priority d);
  _ ← Prisma.require "quantity" (d_quantity d);
  Prisma.require "status" (d_status d).

Definition create (orderId : string) (d : OrderData) (now : Z) : Order :=
  {| order_id := orderId;
     customer_name := field_or_null (d_customer_name d);
     stage := field_or (d_stage d) "Planning";
     priority := field_or (d_priority d) "Medium";
     quantity := field_nullish (d_quantity d) 0%Z;
     materials := field_or_null (d_materials d);
     eta := field_or_null (d_eta d);
     status := field_or (d_status d) "Active";
     assigned_to := field_or_null (d_assigned_to d);
     created_at := now;
     updated_at := now |}.

(** [if (f && !valid.includes(f)) throw ...] *)
Definition validate (mk : string -> error) (valid : list string)
    (f : field string) : result unit :=
  if truthy_field f
     && negb (Machines.list_includes valid (field_nullish f ""))
  then Err (mk (field_nullish f "")) else Ok tt.

Definition updateOrder (now : Z) (orderId : string) (updateData : OrderData)
    (table : gmap string Order) : result (Order * gmap string Order) :=
  rethrow (FailedToUpdate orderId)
    (_ ← validate InvalidStage VALID_STAGES (d_stage updateData);
     _ ← validate InvalidStatus VALID_STATUSES (d_status updateData);
     _ ← validate InvalidPriority VALID_PRIORITIES (d_priority updateData);
     Prisma.upsert order_id "order_id" orderId
       (check updateData) (patch updateData now)
       (create orderId updateData now) table).

(** The update object the webhook hands to [updateOrder]: the parsed object
    itself. *)
Definition of_parsed (p : Parser.ParsedOrder) : OrderData :=
  {| d_order_id := Value (Parser.po_order_id p);
     d_customer_name := Undefined;
     d_stage := of_option (Parser.po_stage p);
     d_priority := of_option (Parser.po_priority p);
     d_quantity := of_option (Parser.po_quantity p);
     d_materials := of_option (Parser.po_materials p);
     d_eta := of_option (Parser.po_eta p);
     d_status := of_option (Parser.po_status p);
     d_assigned_to := of_option (Parser.po_assigned_to p) |}.

End Orders.

(* ===================================================================== *)
(** ** Batch processing (service.js of both modules) and its controllers *)
(* ===================================================================== *)

(** What a caller may pass where an array is expected.  The elements of
    an array are update objects, as the JSDoc of both batch functions types
    them. *)
Inductive jsarray (A : Type) : Type :=
| NotAnArray
| ArrayOf (items : list A).
Arguments NotAnArray {A}.
Arguments ArrayOf {A} items.

Inductive Outcome (Row : Type) : Type :=
| Success (row : Row)                          (* { success: true, row } *)
| KeyRequired                                  (* key 'unknown', '... is required' *)
| Failure (key : string) (cause : error).      (* { success: false, key, error } *)
Arguments Success {Row} row.
Arguments KeyRequired {Row}.
Arguments Failure {Row} key cause.


Section Batch.
Context {Item Row : Type}.
(** The business key of an item and the single-record upsert; [clock i] is
    the time at which item [i] is processed. *)
Variable key_of : Item -> field string.
Variable update :
  Z -> string -> Item -> gmap string Row -> result (Row * gmap string Row).
Variable clock : nat -> Z.

(** One turn of the [for ... of] loop: the outcome pushed and the table
    afterwards. *)
Definition batch_step (i : nat) (item : Item) (table : gmap string Row)
  : Outcome Row * gmap string Row :=
  if negb (truthy_field (key_of item)) then (KeyRequired, table)
  else
    let key := field_nullish (key_of item) "" in
    match update (clock i) key item table with
    | Ok (row, table') => (Success row, table')
    | Err e => (Failure key e, table)
    end.

Fixpoint batch_loop (i : nat) (items : list Item) (table : gmap string Row)
  : list (Outcome Row) * gmap string Row :=
  match items with
  | [] => ([], table)
  | item :: items' =>
      let '(o, table') := batch_step i item table in
      let '(os, table'') := batch_loop (S i) items' table' in
      (o :: os, table'')
  end.

Definition batchUpdate (input : jsarray Item) (table : gmap string Row)
  : result (list (Outcome Row) * gmap string Row) :=
  rethrow FailedBatch
    match input with
    | NotAnArray => Err ExpectedArray
    | ArrayOf items => Ok (batch_loop 0 items table)
    end.
End Batch.

Definition batchUpdateMachines :=
  batchUpdate Machines.d_machine_id Machines.updateMachine.

Definition batchUpdateOrders :=
  batchUpdate Orders.d_order_id Orders.updateOrder.


(* ===================================================================== *)
(** ** Reference definitions used by the statements *)
(* ===================================================================== *)

(** Every row of a table sits under its own business key. *)
Definition keyed {Row} (key_of : Row -> string) (table : gmap string Row)
  : Prop :=
  forall k row, table !! k = Some row -> key_of row = k.

(** The update object [{ status: s }]. *)
Definition status_only (s : string) : Machines.MachineData :=
  {| Machines.d_machine_id := Undefined;
     Machines.d_name := Undefined;
     Machines.d_status := Value s;
     Machines.d_output := Undefined;
     Machines.d_error_message := Undefined;
     Machines.d_operator := Undefined |}.

(** A press that stopped with a fault, and the table holding it. *)
Definition press : Machines.Machine :=
  {| Machines.machine_id := "M01";
     Machines.name := "Machine M01";
     Machines.status := "Error";
     Machines.output := 80%Z;
     Machines.error_message := Some "Hydraulic leak";
     Machines.operator := Some "Arun";
     Machines.last_updated := 1000%Z |}.

Definition floor : gmap string Machines.Machine := {[ "M01" := press ]}.

(** The record created for a machine first reported in Error. *)
Definition lathe : Machines.Machine :=
  {| Machines.machine_id := "M02";
     Machines.name := "Machine M02";
     Machines.status := "Error";
     Machines.output := 0%Z;
     Machines.error_message := Some "Machine error detected";
     Machines.operator := None;
     Machines.last_updated := 2000%Z |}.

(** The record created for a machine first reported Idle. *)
Definition idle_lathe : Machines.Machine :=
  {| Machines.machine_id := "M02";
     Machines.name := "Machine M02";
     Machines.status := "Idle";
     Machines.output := 0%Z;
     Machines.error_message := None;
     Machines.operator := None;
     Machines.last_updated := 2000%Z |}.

(** The update object [{}], and update objects without a status. *)
Definition no_fields : Machines.MachineData :=
  {| Machines.d_machine_id := Undefined;
     Machines.d_name := Undefined;
     Machines.d_status := Undefined;
     Machines.d_output := Undefined;
     Machines.d_error_message := Undefined;
     Machines.d_operator := Undefined |}.


Definition error_message_only (e : field string) : Machines.MachineData :=
  Machines.with_error_message no_fields e.

(** The object the specification gives for the order scenario. *)
Definition scenario_order : Parser.ParsedOrder :=
  {| Parser.po_order_id := "ORD1024";
     Parser.po_stage := Some "Packaging";
     Parser.po_priority := None;
     Parser.po_quantity := None;
     Parser.po_materials := None;
     Parser.po_eta := Some "Nov-18";
     Parser.po_status := None;
     Parser.po_assigned_to := None |}.

Definition scenario_text : string := "ORDER ORD1024 STAGE=Packaging ETA=Nov-18".

(** An order update object with nothing but a key. *)
Definition order_item (key : field string) : Orders.OrderData :=
  {| Orders.d_order_id := key;
     Orders.d_customer_name := Undefined;
     Orders.d_stage := Undefined;
     Orders.d_priority := Undefined;
     Orders.d_quantity := Undefined;
     Orders.d_materials := Undefined;
     Orders.d_eta := Undefined;
     Orders.d_status := Undefined;
     Orders.d_assigned_to := Undefined |}.

(** Three order updates, the second without an order code. *)
Definition three_orders : list Orders.OrderData :=
  [ order_item (Value "ORD1"); order_item Undefined; order_item (Value "ORD3") ].

(** The order created by a bare key at a given time. *)
Definition fresh_order (key : string) (now : Z) : Orders.Order :=
  Orders.create key (order_item (Value key)) now.

Definition ticking : nat -> Z := fun i => (1000 + Z.of_nat i)%Z.

(** A continuation reached by a successful run: it was entered at a suffix
    of the text the run started on. *)
Definition reaches {A} (k : mstate -> option A) (st : mstate) (a : A) : Prop :=
  exists st', k st' = Some a /\ exists x, rest st = x ++ rest st'.

(** *** The classifier as the specification words it *)

(** [c] is the letter [l] (given in upper case) in either case. *)
Definition letter (l c : ascii) : bool := Ascii.eqb (Js.upper_char c) l.

(** The text starts with a machine code: the letter M and a digit. *)
Definition starts_with_machine_code (s : string) : bool :=
  match s with
  | String c (String d _) => letter "M" c && Js.is_digit d
  | _ => false
  end.

(** The text starts with an order code: the letters ORD and a digit. *)
Definition starts_with_order_code (s : string) : bool :=
  match s with
  | String o (String r (String d (String n _))) =>
      letter "O" o && letter "R" r && letter "D" d && Js.is_digit n
  | _ => false
  end.

(** An order code occurs somewhere in the text. *)
Fixpoint contains_order_code (s : string) : bool :=
  starts_with_order_code s ||
  match s with
  | EmptyString => false
  | String _ s' => contains_order_code s'
  end.

(** The token (given in upper case) occurs in the text, in any case. *)
Definition contains_token (tok s : string) : bool :=
  Js.includes (Js.toUpperCase s) tok.

(** Section 4.1 of the specification: the four rules in their order. *)
Definition classify (input : jsval) : Intent :=
  match input with
  | JString "" => UNKNOWN
  | JString text =>
      if starts_with_machine_code (Js.trim text) then MACHINE_UPDATE
      else if contains_token "SAFETY" text then SAFETY_UPDATE
      else if contains_token "ORDER" text || contains_order_code text
           then ORDER_UPDATE
      else UNKNOWN
  | _ => UNKNOWN
  end.

(** *** Business keys as the specification words them *)

(** The digits a text starts with, and the text behind them. *)
Fixpoint leading_digits (s : string) : string :=
  match s with
  | EmptyString => EmptyString
  | String c s' =>
      if Js.is_digit c then String c (leading_digits s') else EmptyString
  end.

Fixpoint after_digits (s : string) : string :=
  match s with
  | EmptyString => EmptyString
  | String c s' => if Js.is_digit c then after_digits s' else s
  end.

(** The first machine token of a text: at the leftmost position where a
    machine code starts, the letter M with all the digits that follow it. *)
Fixpoint first_machine_token (s : string) : option string :=
  match s with
  | EmptyString => None
  | String c s' =>
      if starts_with_machine_code s then Some (String c (leading_digits s'))
      else first_machine_token s'
  end.

(** A text without lower-case letters. *)
Fixpoint upper_only (s : string) : bool :=
  match s with
  | EmptyString => true
  | String c s' => negb (Js.is_lower c) && upper_only s'
  end.

(** The machine key extracted from a message, if any. *)
Definition machine_key (parse : jsval -> option Parser.ParsedMachine)
    (msg : string) : option string :=
  option_map Parser.pm_machine_id (parse (JString msg)).

(** An order on hold, the table holding it, and a stage message for it. *)
Definition held_order : Orders.Order :=
  {| Orders.order_id := "ORD1024";
     Orders.customer_name := Some "Acme";
     Orders.stage := "Packaging";
     Orders.priority := "High";
     Orders.quantity := 40%Z;
     Orders.materials := None;
     Orders.eta := None;
     Orders.status := "OnHold";
     Orders.assigned_to := None;
     Orders.created_at := 1000%Z;
     Orders.updated_at := 1000%Z |}.

Definition order_book : gmap string Orders.Order := {[ "ORD1024" := held_order ]}.

Definition shipping_text : string := "ORD1024 STAGE=Shipping".

Definition shipping_parsed : Parser.ParsedOrder :=
  {| Parser.po_order_id := "ORD1024";
     Parser.po_stage := Some "Shipping";
     Parser.po_priority := None;
     Parser.po_quantity := None;
     Parser.po_materials := None;
     Parser.po_eta := None;
     Parser.po_status := Some "Active";
     Parser.po_assigned_to := None |}.

Definition held_order_shipped : Orders.Order :=
  Orders.patch (Orders.of_parsed shipping_parsed) 2000 held_order.

(* ===================================================================== *)
(** ** utils/whatsappParser.js: the safety extractor *)
(* ===================================================================== *)

Module SafetyParser.

Record ParsedSafety : Type := {
  ps_area_name : string;
  ps_zone : string;
  ps_ppe_required : option string;
  ps_risk_level : option string;
  ps_status : option string;
  ps_notes : option string
}.

(** [/SAFETY\s+(\w+)/i] *)
Definition re_zone : regex :=
  seqs [lit "SAFETY"; plus space; Group 1 (plus word)].
(** [[^,]] *)
Definition not_comma : regex :=
  Chr (fun c => negb (Ascii.eqb c ","%char)).
(** [/PPE[=:]?\s*(G)/i] where the group [G] is [[^,]+] followed by any
    number of [,\s*[^,]+] *)
Definition re_ppe : regex :=
  seqs [lit "PPE"; sep; Star true space;
        Group 1 (Seq (plus not_comma)
                     (Star true (seqs [Chr (fun c => Ascii.eqb c ","%char);
                                       Star true space; plus not_comma])))].
(** [/RISK[=:]?\s*(Low|Medium|High|Critical)/i] *)
Definition re_risk : regex :=
  seqs [lit "RISK"; sep; Star true space;
        Group 1 (alts [lit "Low"; lit "Medium"; lit "High"; lit "Critical"])].
(** [/STATUS[=:]?\s*(Safe|Warning|Critical|Maintenance)/i] *)
Definition re_safety_status : regex :=
  seqs [lit "STATUS"; sep; Star true space;
        Group 1 (alts [lit "Safe"; lit "Warning"; lit "Critical";
                       lit "Maintenance"])].
(** [/NOTES[=:]?\s*(.+?)$/i] *)
Definition re_notes : regex :=
  seqs [lit "NOTES"; sep; Star true space; Group 1 (plus_lazy dot); Eol].

(** A field that is the title-cased capture when the pattern matches and a
    default otherwise. *)
Definition matched_or_default (r : regex) (msg default : string)
  : option string :=
  match js_match r msg with
  | Some m => option_map titleCase (group 1 m)
  | None => Some default
  end.

Definition parseSafetyUpdate (message : jsval) : option ParsedSafety :=
  match message with
  | JString msg =>
      if negb (Js.truthy msg) then None
      else
        match js_match re_zone msg with
        | None => None
        | Some zoneMatch =>
            match group 1 zoneMatch with
            | None => None
            | Some zone =>
                Some {|
                  ps_area_name := zone ++ "_Area";
                  ps_zone := zone;
                  ps_ppe_required :=
                    Parser.capture_map Js.trim 1 (js_match re_ppe msg);
                  ps_risk_level := matched_or_default re_risk msg "Medium";
                  ps_status := matched_or_default re_safety_status msg "Safe";
                  ps_notes :=
                    Parser.capture_map Js.trim 1 (js_match re_notes msg)
                |}
            end
        end
  | _ => None
  end.

End SafetyParser.

(* ===================================================================== *)
(** ** modules/safety/service.js *)
(* ===================================================================== *)

(** [s.replace(pat, '')] with a string pattern: the first occurrence of
    [pat] is cut out. *)
Fixpoint remove_first (pat s : string) : string :=
  if Js.startsWith pat s then
    substring (String.length pat) (String.length s - String.length pat) s
  else
    match s with
    | EmptyString => EmptyString
    | String c s' => String c (remove_first pat s')
    end.

Module Safety.

(** A row of the [safety_areas] table (the surrogate [id] is left out). *)
Record SafetyArea : Type := {
  area_name : string;
  zone : string;
  ppe_required : string;
  risk_level : string;
  last_inspection : Z;
  status : string;
  notes : option string
}.

(** A safety-area update object. *)
Record SafetyData : Type := {
  d_area_name : field string;
  d_zone : field string;
  d_ppe_required : field string;
  d_risk_level : field string;
  d_status : field string;
  d_notes : field string
}.

Definition VALID_STATUSES : list string :=
  ["Safe"; "Warning"; "Critical"; "Maintenance"].
Definition VALID_RISK_LEVELS : list string :=
  ["Low"; "Medium"; "High"; "Critical"].

(** The error thrown for a risk level outside the list; it carries the
    offending value under the tag the error type has for a level field. *)
Definition InvalidRiskLevel (s : string) : error := InvalidPriority s.

(** [{ ...updateData, last_inspection: new Date() }] applied to a row. *)
Definition patch (d : SafetyData) (now : Z) (a : SafetyArea) : SafetyArea :=
  {| area_name := Prisma.set_required (d_area_name d) (area_name a);
     zone := Prisma.set_required (d_zone d) (zone a);
     ppe_required := Prisma.set_required (d_ppe_required d) (ppe_required a);
     risk_level := Prisma.set_required (d_risk_level d) (risk_level a);
     last_inspection := now;
     status := Prisma.set_required (d_status d) (status a);
     notes := Prisma.set_nullable (d_notes d) (notes a) |}.

Definition check (d : SafetyData) : result unit :=
  _ ← Prisma.require "area_name" (d_area_name d);
  _ ← Prisma.require "zone" (d_zone d);
  _ ← Prisma.require "ppe_required" (d_ppe_required d);
  _ ← Prisma.require "risk_level" (d_risk_level d);
  Prisma.require "status" (d_status d).

Definition create (areaName : string) (d : SafetyData) (now : Z)
  : SafetyArea :=
  {| area_name := areaName;
     zone := field_or (d_zone d) (remove_first "_Area" areaName);
     ppe_required := field_or (d_ppe_required d) "Helmet,Gloves,Safety Shoes";
     risk_level := field_or (d_risk_level d) "Medium";
     last_inspection := now;
     status := field_or (d_status d) "Safe";
     notes := field_nullish_null (d_notes d) |}.

Definition updateSafetyArea (now : Z) (areaName : string)
    (updateData : SafetyData) (table : gmap string SafetyArea)
  : result (SafetyArea * gmap string SafetyArea) :=
  rethrow (FailedToUpdate areaName)
    (_ ← Orders.validate InvalidStatus VALID_STATUSES (d_status updateData);
     _ ← Orders.validate InvalidRiskLevel VALID_RISK_LEVELS
                         (d_risk_level updateData);
     Prisma.upsert area_name "area_name" areaName
       (check updateData) (patch updateData now)
       (create areaName updateData now) table).

(** The update object the webhook hands to [updateSafetyArea]: the parsed
    object itself. *)
Definition of_parsed (p : SafetyParser.ParsedSafety) : SafetyData :=
  {| d_area_name := Value (SafetyParser.ps_area_name p);
     d_zone := Value (SafetyParser.ps_zone p);
     d_ppe_required := of_option (SafetyParser.ps_ppe_required p);
     d_risk_level := of_option (SafetyParser.ps_risk_level p);
     d_status := of_option (SafetyParser.ps_status p);
     d_notes := of_option (SafetyParser.ps_notes p) |}.

End Safety.

(* ===================================================================== *)
(** ** Lookups, the order message parser and the order statistics *)
(* ===================================================================== *)

Module Queries.



End Queries.

Module OrderService.

(** [/ORD[A-Z0-9]+/i] *)
Definition re_ord : regex := seqs [lit "ORD"; plus alnum].

(** [parseOrderMessage] of orders/service.js; the [normalizeOrderStage] of
    that file is the same text as the parser's. *)
Definition parseOrderMessage (message : jsval) : option Parser.ParsedOrder :=
  match message with
  | JString msg =>
      if negb (Js.truthy msg) then None
      else
        match js_match re_ord msg with
        | None => None
        | Some orderIdMatch =>
            Some {|
              Parser.po_order_id := Js.toUpperCase (matched orderIdMatch);
              Parser.po_stage :=
                Parser.capture_map Parser.normalizeOrderStage 1
                                   (js_match Parser.re_stage msg);
              Parser.po_priority :=
                Parser.capture_map titleCase 1 (js_match Parser.re_priority msg);
              Parser.po_quantity :=
                match js_match Parser.re_quantity msg with
                | Some m =>
                    option_map Js.parseInt10
                      (Parser.first_truthy (group 1 m) (group 2 m))
                | None => None
                end;
              Parser.po_materials :=
                Parser.capture_map Js.trim 1 (js_match Parser.re_materials msg);
              Parser.po_eta :=
                Parser.capture_map Js.trim 1 (js_match Parser.re_eta msg);
              Parser.po_status :=
                Parser.capture_map titleCase 1
                                   (js_match Parser.re_order_status msg);
              Parser.po_assigned_to :=
                Parser.capture_map Js.trim 1 (js_match Parser.re_assigned msg)
            |}
        end
  | _ => None
  end.

(** [orders.filter((o) => o.f === v).length] *)
Definition count_where (f : Orders.Order -> string) (v : string)
    (orders : list Orders.Order) : nat :=
  length (List.filter (fun o => String.eqb (f o) v) orders).

Record Statistics : Type := {
  total_orders : nat;
  active : nat;
  on_hold : nat;
  completed : nat;
  cancelled : nat;
  stage_planning : nat;
  stage_production : nat;
  stage_quality : nat;
  stage_packaging : nat;
  stage_shipping : nat;
  stage_completed : nat;
  priority_low : nat;
  priority_medium : nat;
  priority_high : nat;
  priority_urgent : nat
}.

(** The [statistics] of [getOrderStatus], from the orders it fetched. *)
Definition statistics (orders : list Orders.Order) : Statistics :=
  {| total_orders := length orders;
     active := count_where Orders.status "Active" orders;
     on_hold := count_where Orders.status "OnHold" orders;
     completed := count_where Orders.status "Completed" orders;
     cancelled := count_where Orders.status "Cancelled" orders;
     stage_planning := count_where Orders.stage "Planning" orders;
     stage_production := count_where Orders.stage "Production" orders;
     stage_quality := count_where Orders.stage "Quality" orders;
     stage_packaging := count_where Orders.stage "Packaging" orders;
     stage_shipping := count_where Orders.stage "Shipping" orders;
     stage_completed := count_where Orders.stage "Completed" orders;
     priority_low := count_where Orders.priority "Low" orders;
     priority_medium := count_where Orders.priority "Medium" orders;
     priority_high := count_where Orders.priority "High" orders;
     priority_urgent := count_where Orders.priority "Urgent" orders |}.

End OrderService.

(* ===================================================================== *)
(** ** modules/whatsapp/routes.js: the webhook *)
(* ===================================================================== *)

Module Webhook.

(** The three tables the services write to. *)
Record World : Type := {
  machines : gmap string Machines.Machine;
  areas : gmap string Safety.SafetyArea;
  orders : gmap string Orders.Order
}.

(** What [processIncomingMessage] returns: the updated record, or [null]. *)
Inductive Updated : Type :=
| UpdatedMachine (m : Machines.Machine)
| UpdatedArea (a : Safety.SafetyArea)
| UpdatedOrder (o : Orders.Order)
| Nothing.

(** The update object the webhook hands to [updateMachine]: the parsed
    object itself. *)
Definition machine_data (p : Parser.ParsedMachine) : Machines.MachineData :=
  {| Machines.d_machine_id := Value (Parser.pm_machine_id p);
     Machines.d_name := Undefined;
     Machines.d_status := of_option (Parser.pm_status p);
     Machines.d_output := of_option (Parser.pm_output p);
     Machines.d_error_message := of_option (Parser.pm_error_message p);
     Machines.d_operator := of_option (Parser.pm_operator p) |}.

Definition processIncomingMessage (now : Z) (messageText : string)
    (w : World) : result (Updated * World) :=
  if negb (Js.truthy (Js.trim messageText)) then Ok (Nothing, w)
  else
    match Parser.detectIntent (JString messageText) with
    | MACHINE_UPDATE =>
        match Parser.parseMachineUpdate (JString messageText) with
        | Some machineData =>
            if Js.truthy (Parser.pm_machine_id machineData) then
              '(m, t) ← Machines.updateMachine now
                          (Parser.pm_machine_id machineData)
                          (machine_data machineData) (machines w);
              Ok (UpdatedMachine m,
                  {| machines := t; areas := areas w; orders := orders w |})
            else Ok (Nothing, w)
        | None => Ok (Nothing, w)
        end
    | SAFETY_UPDATE =>
        match SafetyParser.parseSafetyUpdate (JString messageText) with
        | Some safetyData =>
            if Js.truthy (SafetyParser.ps_area_name safetyData) then
              '(a, t) ← Safety.updateSafetyArea now
                          (SafetyParser.ps_area_name safetyData)
                          (Safety.of_parsed safetyData) (areas w);
              Ok (UpdatedArea a,
                  {| machines := machines w; areas := t; orders := orders w |})
            else Ok (Nothing, w)
        | None => Ok (Nothing, w)
        end
    | ORDER_UPDATE =>
        match Parser.parseOrderUpdate (JString messageText) with
        | Some orderData =>
            if Js.truthy (Parser.po_order_id orderData) then
              '(o, t) ← Orders.updateOrder now
                          (Parser.po_order_id orderData)
                          (Orders.of_parsed orderData) (orders w);
              Ok (UpdatedOrder o,
                  {| machines := machines w; areas := areas w; orders := t |})
            else Ok (Nothing, w)
        | None => Ok (Nothing, w)
        end
    | UNKNOWN => Ok (Nothing, w)
    end.

(** The message loop of the POST handler: the messages are processed in
    turn inside one [try]; the first one that throws ends the loop, and the
    handler answers 200 either way.  [clock i] is the time of message [i]. *)
Fixpoint processMessages (clock : nat -> Z) (i : nat) (texts : list string)
    (w : World) : World :=
  match texts with
  | [] => w
  | text :: texts' =>
      match processIncomingMessage (clock i) text w with
      | Ok (_, w') => processMessages clock (S i) texts' w'
      | Err _ => w
      end
  end.

End Webhook.

(* ===================================================================== *)
(** ** Reference definitions for the further properties *)
(* ===================================================================== *)

(** Every machine of a table has one of the four statuses. *)
Definition machine_statuses_valid (table : gmap string Machines.Machine)
  : Prop :=
  forall k m, table !! k = Some m ->
              In (Machines.status m) Machines.VALID_STATUSES.

(** How the outcome of a batch item relates to the key the item carries. *)
Definition outcome_matches_key {Item Row} (key_of : Item -> field string)
    (row_key : Row -> string) (item : Item) (o : Outcome Row) : Prop :=
  match o with
  | Success row => key_of item = Value (row_key row)
  | KeyRequired => truthy_field (key_of item) = false
  | Failure k _ => key_of item = Value k
  end.

(** A machine update object that carries its key and a status. *)
Definition keyed_status (key s : string) : Machines.MachineData :=
  {| Machines.d_machine_id := Value key;
     Machines.d_name := Undefined;
     Machines.d_status := Value s;
     Machines.d_output := Undefined;
     Machines.d_error_message := Undefined;
     Machines.d_operator := Undefined |}.

Definition empty_world : Webhook.World :=
  {| Webhook.machines := ∅; Webhook.areas := ∅; Webhook.orders := ∅ |}.



Definition press_idle : Machines.Machine :=
  Machines.patch (Machines.applyStatusValidation (status_only "Idle"))
                 2000 press.

(** The press with an empty status, as an empty-string update leaves it. *)
Definition press_blank : Machines.Machine :=
  Machines.patch (status_only "") 2000 press.

(** A batch of two machine updates, the second without a key, and the
    table it leaves. *)
Definition two_machines : list Machines.MachineData :=
  [ keyed_status "M02" "Idle"; no_fields ].

Definition lathe_by_batch : Machines.Machine :=
  Machines.create "M02" (keyed_status "M02" "Idle") 0.

Definition still : nat -> Z := fun _ => 0%Z.

(** The orders of a list whose field [f] has one of the values [valid]. *)
Definition with_valid (f : Orders.Order -> string) (valid : list string)
    (orders : list Orders.Order) : list Orders.Order :=
  List.filter (fun o => Machines.list_includes valid (f o)) orders.

(** A safety update object without fields. *)
Definition no_safety_fields : Safety.SafetyData :=
  {| Safety.d_area_name := Undefined;
     Safety.d_zone := Undefined;
     Safety.d_ppe_required := Undefined;
     Safety.d_risk_level := Undefined;
     Safety.d_status := Undefined;
     Safety.d_notes := Undefined |}.

Definition paint_area : Safety.SafetyArea :=
  Safety.create "Paint_Area" no_safety_fields 2000.

(** *** Order codes as a direct scan finds them *)

Definition is_alnum (c : ascii) : bool := Js.is_alpha c || Js.is_digit c.

Fixpoint take_while (p : ascii -> bool) (s : string) : string :=
  match s with
  | EmptyString => EmptyString
  | String c s' => if p c then String c (take_while p s') else EmptyString
  end.

Fixpoint drop_while (p : ascii -> bool) (s : string) : string :=
  match s with
  | EmptyString => EmptyString
  | String c s' => if p c then drop_while p s' else s
  end.

Fixpoint all_chars (p : ascii -> bool) (s : string) : bool :=
  match s with
  | EmptyString => true
  | String c s' => p c && all_chars p s'
  end.

(** The text starts with an order token: the letters ORD and a letter or
    digit. *)
Definition starts_with_order_token (s : string) : bool :=
  match s with
  | String o (String r (String d (String a _))) =>
      letter "O" o && letter "R" r && letter "D" d && is_alnum a
  | _ => false
  end.

(** The order token at the start of a text: its three letters and all the
    letters and digits that follow. *)
Definition order_token_at (s : string) : string :=
  match s with
  | String o (String r (String d s')) =>
      String o (String r (String d (take_while is_alnum s')))
  | _ => EmptyString
  end.

(** The first order token of a text. *)
Fixpoint first_order_token (s : string) : option string :=
  match s with
  | EmptyString => None
  | String _ s' =>
      if starts_with_order_token s then Some (order_token_at s)
      else first_order_token s'
  end.

(** The order key extracted from a message, if any. *)
Definition order_key (parse : jsval -> option Parser.ParsedOrder)
    (msg : string) : option string :=
  option_map Parser.po_order_id (parse (JString msg)).

(** The statuses the order extractor can produce: the title-cased
    alternatives of its pattern. *)
Definition extracted_order_statuses : list string :=
  ["Active"; "Onhold"; "Completed"; "Cancelled"].

Definition welding_text : string := "SAFETY WeldingZone RISK=High STATUS=Warning".

Definition welding_parsed : SafetyParser.ParsedSafety :=
  {| SafetyParser.ps_area_name := "WeldingZone_Area";
     SafetyParser.ps_zone := "WeldingZone";
     SafetyParser.ps_ppe_required := None;
     SafetyParser.ps_risk_level := Some "High";
     SafetyParser.ps_status := Some "Warning";
     SafetyParser.ps_notes := None |}.

Definition lathe_by_message : Machines.Machine :=
  Machines.create "M02"
    (Machines.applyStatusValidation
       {| Machines.d_machine_id := Value "M02";
          Machines.d_name := Undefined;
          Machines.d_status := Value "Idle";
          Machines.d_output := Undefined;
          Machines.d_error_message := Undefined;
          Machines.d_operator := Undefined |}) 2000.

Definition floor_world : Webhook.World :=
  {| Webhook.machines := floor; Webhook.areas := ∅; Webhook.orders := ∅ |}.

(* ===================================================================== *)
(** ** Properties *)
(* ===================================================================== *)

(** *** The record store *)

Lemma rethrow_ok {A} wrap (r : result A) a :
  rethrow wrap r = Ok a -> r = Ok a.
Proof. destruct r; cbn; congruence. Qed.

Section UpsertFacts.
Context {Row : Type} (key_of : Row -> string) (column : string).

(** What a successful upsert returns. *)
Lemma upsert_ok key chk patch create (table : gmap string Row) row table' :
  Prisma.upsert key_of column key chk patch create table = Ok (row, table') ->
  chk = Ok tt /\
  match table !! key with
  | Some old => row = patch old
  | None => row = create
  end.
Proof.
  unfold Prisma.upsert. destruct chk as [[]|e]; [|discriminate].
  unfold mbind, result_bind. intros H. split; [reflexivity|].
  destruct (table !! key) as [old|]; [|congruence].
  destruct (String.eqb (key_of (patch old)) key); [congruence|].
  destruct (table !! key_of (patch old)); [discriminate|congruence].
Qed.

(** A failed upsert is a failed check or a key collision; the table is not
    part of its result. *)
Lemma upsert_keyed key chk patch create (table : gmap string Row) row table' :
  keyed key_of table ->
  key_of create = key ->
  Prisma.upsert key_of column key chk patch create table = Ok (row, table') ->
  keyed key_of table'.
Proof.
  unfold Prisma.upsert. intros Hk Hc.
  destruct chk as [[]|e]; [|discriminate].
  unfold mbind, result_bind.
  destruct (table !! key) as [old|] eqn:Hlk.
  - destruct (String.eqb_spec (key_of (patch old)) key) as [Heq|Hneq].
    + intros [= <- <-] k r.
      destruct (decide (key = k)) as [->|Hne].
      * rewrite lookup_insert_eq. intros [= <-]. exact Heq.
      * rewrite lookup_insert_ne by exact Hne. apply Hk.
    + destruct (table !! key_of (patch old)); [discriminate|].
      intros [= <- <-] k r.
      destruct (decide (key_of (patch old) = k)) as [<-|Hne].
      * rewrite lookup_insert_eq. intros [= <-]. reflexivity.
      * rewrite lookup_insert_ne by exact Hne.
        destruct (decide (key = k)) as [<-|Hne'].
        -- rewrite lookup_delete_eq. discriminate.
        -- rewrite lookup_delete_ne by exact Hne'. apply Hk.
  - intros [= <- <-] k r.
    destruct (decide (key = k)) as [<-|Hne].
    + rewrite lookup_insert_eq. intros [= <-]. exact Hc.
    + rewrite lookup_insert_ne by exact Hne. apply Hk.
Qed.
End UpsertFacts.

(** *** Machine validation and upsert *)

Section MachineUpdate.
Import Machines.

Lemma valid_status_cases s :
  list_includes VALID_STATUSES s = true ->
  s = "Running" \/ s = "Idle" \/ s = "Maintenance" \/ s = "Error".
Proof.
  unfold list_includes, VALID_STATUSES. simpl.
  rewrite !orb_true_iff, !String.eqb_eq. intuition discriminate.
Qed.

(** A status that is supplied and accepted is one of the four names. *)
Lemma updateMachine_status_valid now key d table r s :
  updateMachine now key d table = Ok r ->
  d_status d = Value s -> s <> "" ->
  list_includes VALID_STATUSES s = true.
Proof.
  unfold updateMachine, rethrow. intros H Hs Hne. rewrite Hs in H.
  destruct s as [|c s']; [congruence|].
  cbn [truthy_field Js.truthy field_nullish andb] in H.
  destruct (list_includes VALID_STATUSES (String c s')); [reflexivity|].
  cbn [negb] in H. discriminate.
Qed.

(** What a successful call returns, in terms of the validated data. *)
Lemma updateMachine_ok now key d table m' table' :
  updateMachine now key d table = Ok (m', table') ->
  let v := applyStatusValidation d in
  check v = Ok tt /\
  match table !! key with
  | Some m => m' = patch v now m
  | None => m' = create key v now
  end.
Proof.
  unfold updateMachine. intros H.
  destruct (truthy_field (d_status d) && _); [discriminate|].
  apply rethrow_ok in H. apply upsert_ok in H. exact H.
Qed.

Lemma applyStatusValidation_status d :
  d_status (applyStatusValidation d) = d_status d.
Proof.
  unfold applyStatusValidation.
  repeat match goal with |- context [if ?b then _ else _] => destruct b end;
    reflexivity.
Qed.

Ltac known_status H :=
  apply valid_status_cases in H;
  destruct H as [-> | [-> | [-> | ->]]].

(** The validated error description, by supplied status. *)
Lemma applyStatusValidation_error_message d s :
  d_status d = Value s -> list_includes VALID_STATUSES s = true ->
  let e := d_error_message (applyStatusValidation d) in
  if String.eqb s "Error"
  then exists x, e = Value x /\ x <> ""
  else match d_error_message d with
       | Undefined => e = Undefined
       | Null => e = Null
       | Value x => if Js.truthy x then e = Null else e = Value ""
       end.
Proof.
  destruct d as [mid nm st out em op]. cbn [d_status]. intros -> Hv.
  known_status Hv; destruct em as [| |[|c x]]; destruct out as [| |[|z|z]];
    cbn; try reflexivity;
    eexists; (split; [reflexivity|discriminate]).
Qed.

End MachineUpdate.

(** C3 (as stated) fails.  The press is in Error with a description: the
    update [{ status: "Running" }] succeeds and leaves a Running record that
    still carries the description, and the update [{ error_message: null }]
    succeeds and leaves a record in Error without a description.  The update
    [{ error_message: "Noise" }] for a machine not yet known creates an Idle
    record that carries the description. *)
Lemma error_description_survives_status_change :
  match Machines.updateMachine 2000 "M01" (status_only "Running") floor with
  | Ok (m', _) =>
      Machines.status m' = "Running" /\
      Machines.error_message m' = Some "Hydraulic leak"
  | Err _ => False
  end /\
  match Machines.updateMachine 2000 "M01" (error_message_only Null) floor with
  | Ok (m', _) =>
      Machines.status m' = "Error" /\ Machines.error_message m' = None
  | Err _ => False
  end /\
  match Machines.updateMachine 2000 "M02"
          (error_message_only (Value "Noise")) floor with
  | Ok (m', _) =>
      Machines.status m' = "Idle" /\ Machines.error_message m' = Some "Noise"
  | Err _ => False
  end.
Proof. vm_compute. repeat split; reflexivity. Qed.

(** C3 (amended): when a successful update supplies a status, the resulting
    record has that status, which is one of the four names.  If it is Error
    the record carries a non-empty error description.  If it is not Error,
    the description is null when the update itself carried a non-empty
    description or null, and it is null or empty when the record is newly
    created. *)
Theorem error_description_follows_supplied_status
    now key d table m' table' s :
  Machines.updateMachine now key d table = Ok (m', table') ->
  Machines.d_status d = Value s -> s <> "" ->
  Machines.status m' = s /\
  In s Machines.VALID_STATUSES /\
  (s = "Error" ->
     exists e, Machines.error_message m' = Some e /\ e <> "") /\
  (s <> "Error" ->
     (truthy_field (Machines.d_error_message d) = true \/
      Machines.d_error_message d = Null ->
      Machines.error_message m' = None) /\
     (table !! key = None ->
      Machines.error_message m' = None \/
      Machines.error_message m' = Some "")).
Proof.
  intros Hok Hs Hne.
  pose proof (updateMachine_status_valid _ _ _ _ _ _ Hok Hs Hne) as Hv.
  pose proof (applyStatusValidation_error_message d s Hs Hv) as He.
  pose proof (applyStatusValidation_status d) as Hst. rewrite Hs in Hst.
  apply updateMachine_ok in Hok. cbv zeta in Hok, He.
  destruct Hok as [_ Hm'].
  set (v := Machines.applyStatusValidation d) in *.
  assert (Hstat : Machines.status m' = s).
  { destruct (table !! key); subst m'; cbn; rewrite Hst; cbn;
      [reflexivity|]. destruct s; [congruence|reflexivity]. }
  split; [exact Hstat|]. split.
  { clear -Hv. apply valid_status_cases in Hv.
    destruct Hv as [-> | [-> | [-> | ->]]]; cbn; tauto. }
  split.
  - intros ->. cbn in He. destruct He as (x & Hx & Hxne).
    exists x. split; [|exact Hxne].
    destruct (table !! key); subst m'; cbn; rewrite Hx; reflexivity.
  - intros Hnerr. apply String.eqb_neq in Hnerr. rewrite Hnerr in He.
    repeat split.
    + intros Hc.
      destruct (Machines.d_error_message d) as [| |x] eqn:Hem.
      * destruct Hc; discriminate.
      * destruct (table !! key); subst m'; cbn; rewrite He; reflexivity.
      * destruct Hc as [Hc|Hc]; [|discriminate]. cbn in Hc. rewrite Hc in He.
        destruct (table !! key); subst m'; cbn; rewrite He; reflexivity.
    + intros Hnone. rewrite Hnone in Hm'. subst m'. cbn.
      destruct (Machines.d_error_message d) as [| |x].
      * rewrite He. left. reflexivity.
      * rewrite He. left. reflexivity.
      * destruct (Js.truthy x); rewrite He; [left|right]; reflexivity.
Qed.

Lemma error_description_follows_supplied_status_witness :
  Machines.updateMachine 2000 "M02" (status_only "Error") floor
    = Ok (lathe, <["M02" := lathe]> floor) /\
  Machines.d_status (status_only "Error") = Value "Error" /\
  "Error" <> "" /\
  exists e, Machines.error_message lathe = Some e /\ e <> "".
Proof.
  split; [reflexivity|]. split; [reflexivity|]. split; [discriminate|].
  destruct (error_description_follows_supplied_status
              2000 "M02" (status_only "Error") floor lathe
              (<["M02" := lathe]> floor) "Error"
              eq_refl eq_refl ltac:(discriminate)) as (_ & _ & H & _).
  exact (H eq_refl).
Defined.




(** A successful update keeps every row under its own key. *)
Lemma updateMachine_keyed now key d table m' table' :
  keyed Machines.machine_id table ->
  Machines.updateMachine now key d table = Ok (m', table') ->
  keyed Machines.machine_id table'.
Proof.
  unfold Machines.updateMachine. intros Hk H.
  destruct (truthy_field _ && _); [discriminate|].
  apply rethrow_ok in H. eapply upsert_keyed; [exact Hk| |exact H].
  reflexivity.
Qed.

(** C5: on an existing machine with output 80 and operator "Arun", the
    update [{ status: "Running" }] succeeds, stores the returned record under
    the same key, and the record differs from the prior one in nothing but
    its status, now Running, and its last-updated time. *)
Theorem status_only_update_is_a_merge now key table m :
  table !! key = Some m ->
  Machines.machine_id m = key ->
  Machines.output m = 80%Z ->
  Machines.operator m = Some "Arun" ->
  exists m',
    Machines.updateMachine now key (status_only "Running") table
      = Ok (m', <[key := m']> table) /\
    Machines.output m' = 80%Z /\
    Machines.operator m' = Some "Arun" /\
    Machines.machine_id m' = Machines.machine_id m /\
    Machines.name m' = Machines.name m /\
    Machines.error_message m' = Machines.error_message m /\
    Machines.status m' = "Running" /\
    Machines.last_updated m' = now.
Proof.
  intros Hlk Hkey Hout Hop.
  exists (Machines.patch (status_only "Running") now m).
  split.
  - unfold Machines.updateMachine, rethrow, Prisma.upsert. cbn.
    rewrite Hlk. cbn. rewrite Hkey, String.eqb_refl. reflexivity.
  - cbn. repeat split; assumption || reflexivity.
Qed.

Lemma status_only_update_is_a_merge_witness :
  floor !! "M01" = Some press /\
  Machines.machine_id press = "M01" /\
  Machines.output press = 80%Z /\
  Machines.operator press = Some "Arun" /\
  exists m',
    Machines.updateMachine 2000 "M01" (status_only "Running") floor
      = Ok (m', <["M01" := m']> floor) /\
    Machines.output m' = 80%Z /\
    Machines.operator m' = Some "Arun" /\
    Machines.status m' = "Running".
Proof.
  repeat (split; [reflexivity|]).
  destruct (status_only_update_is_a_merge 2000 "M01" floor press
              eq_refl eq_refl eq_refl eq_refl)
    as (m' & H & Ho & Hp & _ & _ & _ & Hs & _).
  exists m'. auto.
Defined.

(** *** Extraction scenarios and normalizers *)

(** C1 (as stated) fails: the extractor does not return the object of the
    scenario. *)
Lemma order_scenario_differs :
  Parser.parseOrderUpdate (JString scenario_text) <> Some scenario_order.
Proof. vm_compute. discriminate. Qed.

(** C1 (amended): for "ORDER ORD1024 STAGE=Packaging ETA=Nov-18" order
    extraction succeeds with stage Packaging, eta Nov-18 and status Active,
    the default of a message without STATUS, and sets no priority, quantity,
    materials or assigned_to. *)
Theorem order_scenario_fields :
  exists p,
    Parser.parseOrderUpdate (JString scenario_text) = Some p /\
    Parser.po_stage p = Some "Packaging" /\
    Parser.po_eta p = Some "Nov-18" /\
    Parser.po_status p = Some "Active" /\
    Parser.po_priority p = None /\
    Parser.po_quantity p = None /\
    Parser.po_materials p = None /\
    Parser.po_assigned_to p = None.
Proof. eexists. split; [vm_compute; reflexivity|]. cbn. tauto. Qed.

(** The order code of the scenario: the first alternative of the pattern
    already matches the word ORDER itself. *)
Lemma order_scenario_code :
  option_map Parser.po_order_id
    (Parser.parseOrderUpdate (JString scenario_text)) = Some "ORDER".
Proof. vm_compute. reflexivity. Qed.

(** The two copies of the machine-status normalizer agree. *)
Lemma normalizeStatus_same w :
  MachineUtils.normalizeStatus w = Parser.normalizeMachineStatus w.
Proof. reflexivity. Qed.

(** C2: the normalizer searches the title-cased word for lower-case stems, so
    a stem at the start of the word is not found: "down" stays "Down" and
    "run" stays "Run", in both copies and through the machine extractor. *)
Theorem leading_stem_is_not_normalized :
  Parser.normalizeMachineStatus "down" = "Down" /\
  MachineUtils.normalizeStatus "down" = "Down" /\
  Parser.normalizeMachineStatus "run" = "Run" /\
  Parser.normalizeMachineStatus "maintain" = "Maintain" /\
  Parser.normalizeMachineStatus "shutdown" = "Error" /\
  option_map Parser.pm_status
    (Parser.parseMachineUpdate (JString "M03 STATUS=down"))
    = Some (Some "Down").
Proof. vm_compute. repeat split; reflexivity. Qed.

(** *** Batch processing *)

Section BatchFacts.
Context {Item Row : Type}.
Variable key_of : Item -> field string.
Variable update :
  Z -> string -> Item -> gmap string Row -> result (Row * gmap string Row).
Variable clock : nat -> Z.

Local Abbreviation step := (batch_step key_of update clock).
Local Abbreviation loop := (batch_loop key_of update clock).




End BatchFacts.


(** *** Strings *)

Section StringFacts.
Lemma append_cons c (a b : string) : String c a ++ b = String c (a ++ b).
Proof. reflexivity. Qed.

Lemma append_nil_l (b : string) : "" ++ b = b.
Proof. reflexivity. Qed.

Lemma append_assoc (a b c : string) : (a ++ b) ++ c = a ++ (b ++ c).
Proof.
  induction a as [|x a IH]; [reflexivity|].
  rewrite !append_cons. now rewrite IH.
Qed.

Lemma append_nil_r (a : string) : a ++ "" = a.
Proof.
  induction a as [|x a IH]; [reflexivity|].
  rewrite append_cons. now rewrite IH.
Qed.

Lemma length_append (a b : string) :
  String.length (a ++ b) = (String.length a + String.length b)%nat.
Proof.
  induction a as [|x a IH]; [reflexivity|].
  rewrite append_cons. cbn. now rewrite IH.
Qed.

Lemma substring_prefix (a b : string) :
  substring 0 (String.length a) (a ++ b) = a.
Proof.
  induction a as [|x a IH]; [now destruct b|].
  rewrite append_cons. cbn. now rewrite IH.
Qed.

Lemma consumed_append (a b : string) : consumed (a ++ b) b = a.
Proof.
  unfold consumed. rewrite length_append.
  replace (String.length a + String.length b - String.length b)%nat
    with (String.length a) by lia.
  apply substring_prefix.
Qed.
End StringFacts.

(** *** The matcher *)

Section RegexFacts.
Context {A : Type}.

Lemma reaches_here (k : mstate -> option A) st a :
  k st = Some a -> reaches k st a.
Proof. intros H. exists st. split; [exact H|]. now exists "". Qed.

Lemma orelse_some (x y : option A) a :
  orelse x y = Some a -> x = Some a \/ y = Some a.
Proof. destruct x; cbn; auto. Qed.

Lemma star_loop_reaches body greedy :
  (forall st (k : mstate -> option A) a,
      body st k = Some a -> reaches k st a) ->
  forall fuel st k a,
    star_loop body greedy k fuel st = Some a -> reaches k st a.
Proof.
  intros Hbody. induction fuel as [|fuel IH]; intros st k a; cbn [star_loop].
  - apply reaches_here.
  - intros H.
    assert (Hcase : body st (fun st' =>
               if (String.length (rest st') <? String.length (rest st))%nat
               then star_loop body greedy k fuel st' else None) = Some a
             \/ k st = Some a).
    { destruct greedy; apply orelse_some in H; tauto. }
    destruct Hcase as [Hagain|Hk]; [|now apply reaches_here].
    apply Hbody in Hagain. destruct Hagain as (st1 & H1 & x & Hx).
    destruct (_ <? _)%nat; [|discriminate].
    apply IH in H1. destruct H1 as (st2 & H2 & y & Hy).
    exists st2. split; [exact H2|]. exists (x ++ y).
    rewrite Hx, Hy. symmetry. apply append_assoc.
Qed.

Lemma run_reaches r : forall st (k : mstate -> option A) a,
  run r st k = Some a -> reaches k st a.
Proof.
  induction r as [|p|r1 IH1 r2 IH2|r1 IH1 r2 IH2|g r IH|i r IH| | |];
    intros st k a; cbn [run].
  - apply reaches_here.
  - destruct (rest st) as [|c s'] eqn:E; [discriminate|].
    destruct (p c); [|discriminate]. intros H.
    exists (MState (Some c) s' (caps st)). split; [exact H|].
    now exists (String c "").
  - intros H. apply IH1 in H. destruct H as (st1 & H1 & x & Hx).
    apply IH2 in H1. destruct H1 as (st2 & H2 & y & Hy).
    exists st2. split; [exact H2|]. exists (x ++ y).
    rewrite Hx, Hy. symmetry. apply append_assoc.
  - intros H. apply orelse_some in H. destruct H; [apply IH1|apply IH2]; auto.
  - apply star_loop_reaches. intros st0 k0 a0. apply IH.
  - intros H. apply IH in H. destruct H as (st1 & H1 & x & Hx).
    exists (MState (prev st1) (rest st1)
                   ((i, consumed (rest st) (rest st1)) :: caps st1)).
    split; [exact H1|]. now exists x.
  - destruct (prev st); [discriminate|]. apply reaches_here.
  - destruct (rest st); [|discriminate]. apply reaches_here.
  - destruct (xorb _ _); [|discriminate]. apply reaches_here.
Qed.
End RegexFacts.

Lemma run_consumed r p s st' :
  run r (MState p s []) Some = Some st' ->
  s = consumed s (rest st') ++ rest st'.
Proof.
  intros E. apply run_reaches in E.
  destruct E as (st1 & [= ->] & x & Hx). cbn [rest] in Hx.
  rewrite Hx at 2. now rewrite consumed_append.
Qed.

(** A match splits the text into what is in front of it, the match itself
    and what is behind it. *)
Lemma search_split r : forall s p pre idx m,
  search r p pre s idx = Some m ->
  pre ++ s = before m ++ matched m ++ after m.
Proof.
  induction s as [|c s IH]; intros p pre idx m; cbn [search].
  - destruct (run r (MState p "" []) Some) as [st'|] eqn:E; [|discriminate].
    intros [= <-]. cbn [before matched after].
    now rewrite <- (run_consumed _ _ _ _ E).
  - destruct (run r (MState p (String c s) []) Some) as [st'|] eqn:E.
    + intros [= <-]. cbn [before matched after].
      now rewrite <- (run_consumed _ _ _ _ E).
    + intros H. apply IH in H. rewrite <- H.
      now rewrite append_assoc.
Qed.

Lemma js_match_split r s m :
  js_match r s = Some m -> s = before m ++ matched m ++ after m.
Proof. intros H. apply search_split in H. exact H. Qed.

(** *** The intent classifier *)

Ltac run_step :=
  cbn [seqs lit alts];
  unfold plus, plus_lazy, opt, sep, ci, digit, word, space, alnum, dot;
  cbn [run rest prev caps].

Lemma star_loop_total {A} body greedy (k : mstate -> option A) :
  (forall st, is_Some (k st)) ->
  forall fuel st, is_Some (star_loop body greedy k fuel st).
Proof.
  intros Hk [|fuel] st; cbn [star_loop]; [apply Hk|].
  destruct (Hk st) as [a Ha]. rewrite Ha.
  destruct greedy; cbn; [|eauto].
  match goal with |- is_Some (orelse ?x _) => destruct x end; cbn; eauto.
Qed.

Lemma some_total (st : mstate) : is_Some (Some st).
Proof. now exists st. Qed.

(** Behind the first character the anchored machine pattern cannot match. *)
Lemma search_machine_start_later : forall s c pre idx,
  search Parser.re_machine_start (Some c) pre s idx = None.
Proof.
  induction s as [|d s IH]; intros c pre idx; cbn [search];
    unfold Parser.re_machine_start; run_step; [reflexivity|].
  apply IH.
Qed.

Lemma search_unfold r p pre s idx :
  search r p pre s idx =
  match run r (MState p s []) Some with
  | Some st' =>
      Some (MResult idx pre (consumed s (rest st')) (caps st') (rest st'))
  | None =>
      match s with
      | EmptyString => None
      | String c s' => search r (Some c) (pre ++ String c EmptyString) s' (S idx)
      end
  end.
Proof. destruct s; reflexivity. Qed.

Lemma test_machine_start s :
  test Parser.re_machine_start s = starts_with_machine_code s.
Proof.
  unfold test, js_match. rewrite search_unfold.
  assert (Hlater :
    match s with
    | "" => None
    | String c s' =>
        search Parser.re_machine_start (Some c) ("" ++ String c "") s' 1
    end = None).
  { destruct s; [reflexivity|apply search_machine_start_later]. }
  rewrite Hlater. clear Hlater.
  unfold Parser.re_machine_start. run_step.
  change (Js.upper_char "M") with "M"%char.
  unfold starts_with_machine_code, letter.
  destruct s as [|c [|d s']]; [reflexivity| |].
  - destruct (Ascii.eqb _ _); reflexivity.
  - destruct (Ascii.eqb (Js.upper_char c) "M"); cbn [andb]; [|reflexivity].
    cbn [rest prev caps]. destruct (Js.is_digit d); [|reflexivity].
    match goal with
    | |- context [star_loop ?b ?g ?k ?f ?st] =>
        destruct (star_loop_total b g k some_total f st) as [a ->]
    end.
    reflexivity.
Qed.

(** The order-code pattern succeeds at a position exactly when an order code
    starts there. *)
Lemma run_ord_digits p s :
  match run Parser.re_ord_digits (MState p s []) Some with
  | Some _ => true
  | None => false
  end = starts_with_order_code s.
Proof.
  unfold Parser.re_ord_digits. run_step.
  change (Js.upper_char "O") with "O"%char.
  change (Js.upper_char "R") with "R"%char.
  change (Js.upper_char "D") with "D"%char.
  unfold starts_with_order_code, letter.
  destruct s as [|o [|r [|d [|n s']]]];
    repeat (cbn [rest prev caps andb];
            match goal with
            | |- context [Ascii.eqb (Js.upper_char ?c) ?l] =>
                destruct (Ascii.eqb (Js.upper_char c) l)
            end);
    cbn [rest prev caps andb]; try reflexivity.
  destruct (Js.is_digit n); [|reflexivity].
  match goal with
  | |- context [star_loop ?b ?g ?k ?f ?st] =>
      destruct (star_loop_total b g k some_total f st) as [a ->]
  end.
  reflexivity.
Qed.

Lemma test_ord_digits_search : forall s p pre idx,
  match search Parser.re_ord_digits p pre s idx with
  | Some _ => true
  | None => false
  end = contains_order_code s.
Proof.
  induction s as [|c s IH]; intros p pre idx;
    rewrite search_unfold; cbn [contains_order_code];
    rewrite <- (run_ord_digits p);
    destruct (run Parser.re_ord_digits _ Some); cbn [orb]; try reflexivity.
  apply IH.
Qed.

Lemma test_ord_digits s :
  test Parser.re_ord_digits s = contains_order_code s.
Proof. apply test_ord_digits_search. Qed.

(** C7: the classifier computes the four rules of the specification in
    their order: a machine code at the start of the trimmed text, else the
    token SAFETY, else the token ORDER or an order code anywhere, else
    Unknown, without regard to case; the empty string and every input that
    is not a string are Unknown. *)
Theorem detectIntent_follows_the_rules input :
  Parser.detectIntent input = classify input /\
  Parser.detectIntent (JString "") = UNKNOWN /\
  match input with
  | JString _ => True
  | _ => Parser.detectIntent input = UNKNOWN
  end.
Proof.
  split; [|split; [reflexivity|destruct input; trivial; reflexivity]].
  destruct input as [| | | |text|]; try reflexivity.
  destruct text as [|c text]; [reflexivity|].
  unfold Parser.detectIntent, classify, contains_token.
  cbn [Js.truthy negb].
  now rewrite test_machine_start, test_ord_digits.
Qed.

(** *** Business keys *)

Lemma upper_char_not_lower c : Js.is_lower (Js.upper_char c) = false.
Proof. destruct c as [[] [] [] [] [] [] [] []]; reflexivity. Qed.

Lemma upper_char_idem c : Js.upper_char (Js.upper_char c) = Js.upper_char c.
Proof. destruct c as [[] [] [] [] [] [] [] []]; reflexivity. Qed.

Lemma upper_char_digit c : Js.is_digit (Js.upper_char c) = Js.is_digit c.
Proof. destruct c as [[] [] [] [] [] [] [] []]; reflexivity. Qed.

Lemma digit_upper_char c : Js.is_digit c = true -> Js.upper_char c = c.
Proof.
  destruct c as [[] [] [] [] [] [] [] []]; vm_compute; intros H;
    (reflexivity || discriminate H).
Qed.

Lemma not_lower_upper_char c : Js.is_lower c = false -> Js.upper_char c = c.
Proof. unfold Js.upper_char. now intros ->. Qed.

Lemma toUpperCase_idem s : Js.toUpperCase (Js.toUpperCase s) = Js.toUpperCase s.
Proof.
  induction s as [|c s IH]; cbn; [reflexivity|].
  now rewrite upper_char_idem, IH.
Qed.

Lemma upper_only_toUpperCase s : upper_only (Js.toUpperCase s) = true.
Proof.
  induction s as [|c s IH]; cbn; [reflexivity|].
  now rewrite upper_char_not_lower, IH.
Qed.

Lemma upper_only_fixed s : upper_only s = true -> Js.toUpperCase s = s.
Proof.
  induction s as [|c s IH]; cbn; [reflexivity|].
  intros H. apply andb_true_iff in H. destruct H as [Hc Hs].
  apply negb_true_iff in Hc.
  now rewrite (not_lower_upper_char c Hc), (IH Hs).
Qed.

Lemma upper_only_append a b :
  upper_only (a ++ b) = upper_only a && upper_only b.
Proof.
  induction a as [|c a IH]; [reflexivity|].
  rewrite append_cons. cbn. now rewrite IH, andb_assoc.
Qed.

(** Cutting a match out of an upper-case text leaves an upper-case text. *)
Lemma replace_empty_upper_only r s :
  upper_only s = true -> upper_only (replace_empty r s) = true.
Proof.
  unfold replace_empty. intros H.
  destruct (js_match r s) as [m|] eqn:E; [|exact H].
  apply js_match_split in E. rewrite E in H.
  rewrite !upper_only_append in H. rewrite upper_only_append.
  apply andb_true_iff in H. destruct H as [Hb H].
  apply andb_true_iff in H. destruct H as [_ Ha].
  now rewrite Hb, Ha.
Qed.

Lemma order_id_of_upper m :
  Js.toUpperCase (Parser.order_id_of m) = Parser.order_id_of m.
Proof.
  apply upper_only_fixed. unfold Parser.order_id_of.
  pose proof (replace_empty_upper_only Parser.re_order_prefix
                (Js.toUpperCase (matched m))
                (upper_only_toUpperCase _)) as H.
  destruct (Js.startsWith _ _); [exact H|].
  rewrite upper_only_append, H. reflexivity.
Qed.

Lemma digits_split s : s = leading_digits s ++ after_digits s.
Proof.
  induction s as [|c s IH]; [reflexivity|]. cbn.
  destruct (Js.is_digit c); [|reflexivity].
  rewrite append_cons. now rewrite <- IH.
Qed.

Lemma run_digit {A} st (k : mstate -> option A) :
  run digit st k =
  match rest st with
  | EmptyString => None
  | String c s' =>
      if Js.is_digit c then k (MState (Some c) s' (caps st)) else None
  end.
Proof. reflexivity. Qed.

(** The greedy digit loop stops behind the last digit. *)
Lemma star_digits : forall fuel st,
  (String.length (rest st) < fuel)%nat ->
  exists st',
    star_loop (fun st0 k' => run digit st0 k') true Some fuel st = Some st' /\
    rest st' = after_digits (rest st).
Proof.
  induction fuel as [|fuel IH]; intros st Hlen; [lia|].
  cbn [star_loop]. rewrite run_digit.
  destruct (rest st) as [|c s'] eqn:E; cbn [orelse after_digits].
  - exists st. now rewrite E.
  - destruct (Js.is_digit c) eqn:Hd; cbn [orelse].
    + cbn [rest String.length].
      rewrite (proj2 (Nat.ltb_lt _ _) (Nat.lt_succ_diag_r _)).
      destruct (IH (MState (Some c) s' (caps st))) as (st' & H1 & H2).
      { cbn in *. lia. }
      rewrite H1. exists st'. split; [reflexivity|exact H2].
    + exists st. now rewrite E.
Qed.

(** The machine pattern succeeds at a position exactly when a machine code
    starts there, and then reads the letter and all the digits. *)
Lemma run_machine_id p s :
  option_map (fun st' => consumed s (rest st'))
             (run Parser.re_machine_id (MState p s []) Some) =
  if starts_with_machine_code s
  then Some (match s with
             | String c s' => String c (leading_digits s')
             | EmptyString => EmptyString
             end)
  else None.
Proof.
  unfold Parser.re_machine_id. cbn [seqs]. unfold plus, ci.
  cbn [run rest prev caps].
  change (Js.upper_char "M") with "M"%char.
  unfold starts_with_machine_code, letter.
  destruct s as [|c [|d s']]; [reflexivity| |].
  - destruct (Ascii.eqb _ _); reflexivity.
  - destruct (Ascii.eqb (Js.upper_char c) "M"); cbn [andb]; [|reflexivity].
    rewrite run_digit. cbn [rest prev caps].
    destruct (Js.is_digit d) eqn:Hd; [|reflexivity].
    destruct (star_digits (S (String.length s'))
                          (MState (Some d) s' [])) as (st' & H1 & H2).
    { cbn. lia. }
    rewrite H1. cbn [option_map]. f_equal.
    rewrite H2. cbn [rest leading_digits]. rewrite Hd.
    rewrite (digits_split s') at 1.
    change (String c (String d (leading_digits s' ++ after_digits s')))
      with (String c (String d (leading_digits s')) ++ after_digits s').
    apply consumed_append.
Qed.

Lemma search_machine_id : forall s p pre idx,
  option_map matched (search Parser.re_machine_id p pre s idx) =
  first_machine_token s.
Proof.
  induction s as [|c s IH]; intros p pre idx; rewrite search_unfold;
    pose proof (run_machine_id p) as H.
  - specialize (H ""). cbn [starts_with_machine_code] in H.
    destruct (run Parser.re_machine_id _ Some); [discriminate|reflexivity].
  - specialize (H (String c s)). cbn [first_machine_token].
    destruct (run Parser.re_machine_id _ Some) as [st'|];
      destruct (starts_with_machine_code (String c s));
      cbn [option_map matched] in *; first [apply IH | congruence].
Qed.

Lemma js_match_machine_id s :
  option_map matched (js_match Parser.re_machine_id s) = first_machine_token s.
Proof. apply search_machine_id. Qed.

Lemma machine_key_parseMachineUpdate msg :
  machine_key Parser.parseMachineUpdate msg =
  option_map Js.toUpperCase (first_machine_token msg).
Proof.
  unfold machine_key, Parser.parseMachineUpdate.
  rewrite <- js_match_machine_id.
  destruct msg as [|c msg]; [reflexivity|]. cbn [Js.truthy negb].
  destruct (js_match Parser.re_machine_id (String c msg)); reflexivity.
Qed.

Lemma starts_with_machine_code_upper s :
  starts_with_machine_code (Js.toUpperCase s) = starts_with_machine_code s.
Proof.
  destruct s as [|c [|d s]]; try reflexivity. cbn. unfold letter.
  now rewrite upper_char_idem, upper_char_digit.
Qed.

Lemma leading_digits_upper s :
  leading_digits (Js.toUpperCase s) = Js.toUpperCase (leading_digits s).
Proof.
  induction s as [|c s IH]; [reflexivity|]. cbn.
  rewrite upper_char_digit. destruct (Js.is_digit c); [|reflexivity].
  cbn. now rewrite IH.
Qed.

Lemma first_machine_token_upper s :
  first_machine_token (Js.toUpperCase s) =
  option_map Js.toUpperCase (first_machine_token s).
Proof.
  induction s as [|c s IH]; [reflexivity|].
  change (Js.toUpperCase (String c s))
    with (String (Js.upper_char c) (Js.toUpperCase s)) at 1.
  cbn [first_machine_token].
  change (String (Js.upper_char c) (Js.toUpperCase s))
    with (Js.toUpperCase (String c s)).
  rewrite starts_with_machine_code_upper.
  destruct (starts_with_machine_code (String c s)); [|exact IH].
  cbn. now rewrite leading_digits_upper.
Qed.

(** C10: the machine extractors return, when they succeed, the first machine
    token of the text in upper case, and succeed exactly when there is one;
    the order extractor returns, when it succeeds, an order code in upper
    case; and a message and its upper-case form give the same machine key,
    as "m03" and "M03" do. *)
Theorem business_keys_are_upper_case msg :
  machine_key Parser.parseMachineUpdate msg
    = option_map Js.toUpperCase (first_machine_token msg) /\
  match MachineUtils.parseWhatsappMessage (JString msg) with
  | Some p =>
      Some (Parser.pm_machine_id p)
        = option_map Js.toUpperCase (first_machine_token msg)
  | None => True
  end /\
  match Parser.parseOrderUpdate (JString msg) with
  | Some p => Js.toUpperCase (Parser.po_order_id p) = Parser.po_order_id p
  | None => True
  end /\
  machine_key Parser.parseMachineUpdate (Js.toUpperCase msg)
    = machine_key Parser.parseMachineUpdate msg /\
  machine_key Parser.parseMachineUpdate "m03 status=idle" = Some "M03" /\
  machine_key Parser.parseMachineUpdate "M03 STATUS=Idle" = Some "M03".
Proof.
  split; [apply machine_key_parseMachineUpdate|].
  split.
  { unfold MachineUtils.parseWhatsappMessage.
    rewrite <- js_match_machine_id.
    destruct msg as [|c msg]; [exact I|]. cbn [Js.truthy negb].
    destruct (js_match Parser.re_machine_id (String c msg)); [|exact I].
    destruct (MachineUtils.either_group _ (js_match MachineUtils.re_status2 _));
      [|exact I].
    destruct (MachineUtils.either_group _ (js_match MachineUtils.re_output2 _));
      [|exact I].
    reflexivity. }
  split.
  { unfold Parser.parseOrderUpdate.
    destruct msg as [|c msg]; [exact I|]. cbn [Js.truthy negb].
    destruct (js_match Parser.re_order_id (String c msg)); [|exact I].
    apply order_id_of_upper. }
  split.
  { rewrite !machine_key_parseMachineUpdate, first_machine_token_upper.
    destruct (first_machine_token msg); [|reflexivity].
    cbn. now rewrite toUpperCase_idem. }
  split; vm_compute; reflexivity.
Qed.

(** *** The default status of the order extractor *)

(** A literal can only be read where the text starts with it, case apart. *)
Lemma run_lit {A} : forall w st (k : mstate -> option A) a,
  run (lit w) st k = Some a ->
  Js.startsWith (Js.toUpperCase w) (Js.toUpperCase (rest st)) = true.
Proof.
  induction w as [|c w IH]; intros st k a; [reflexivity|].
  destruct w as [|c' w'].
  - cbn [lit]. unfold ci. cbn [run].
    destruct (rest st) as [|x s']; [discriminate|].
    destruct (Ascii.eqb (Js.upper_char x) (Js.upper_char c)) eqn:E;
      [|discriminate].
    intros _. cbn. rewrite Ascii.eqb_sym, E. reflexivity.
  - change (lit (String c (String c' w')))
      with (Seq (ci c) (lit (String c' w'))).
    unfold ci. cbn [run].
    destruct (rest st) as [|x s']; [discriminate|].
    destruct (Ascii.eqb (Js.upper_char x) (Js.upper_char c)) eqn:E;
      [|discriminate].
    intros H. apply IH in H. cbn [rest] in H.
    change (Js.toUpperCase (String c (String c' w')))
      with (String (Js.upper_char c) (Js.toUpperCase (String c' w'))).
    change (Js.toUpperCase (String x s'))
      with (String (Js.upper_char x) (Js.toUpperCase s')).
    cbn [Js.startsWith]. rewrite Ascii.eqb_sym, E, H. reflexivity.
Qed.

(** A pattern that starts with a literal matches only in a text that
    contains the literal, case apart. *)
Lemma search_needs_literal w r : forall s p pre idx m,
  search (Seq (lit w) r) p pre s idx = Some m ->
  Js.includes (Js.toUpperCase s) (Js.toUpperCase w) = true.
Proof.
  induction s as [|c s IH]; intros p pre idx m; rewrite search_unfold.
  - destruct (run _ _ Some) as [st'|] eqn:E; [|discriminate]. intros _.
    cbn [run] in E. apply run_lit in E. cbn [rest] in E.
    change (Js.toUpperCase "") with "" in *.
    cbn [Js.includes]. now rewrite E.
  - destruct (run _ _ Some) as [st'|] eqn:E.
    + intros _. cbn [run] in E. apply run_lit in E. cbn [rest] in E.
      change (Js.toUpperCase (String c s))
        with (String (Js.upper_char c) (Js.toUpperCase s)) in *.
      cbn [Js.includes]. now rewrite E.
    + intros H. apply IH in H.
      change (Js.toUpperCase (String c s))
        with (String (Js.upper_char c) (Js.toUpperCase s)).
      cbn [Js.includes]. rewrite H. apply orb_true_r.
Qed.

Lemma no_status_no_match msg :
  contains_token "STATUS" msg = false ->
  js_match Parser.re_order_status msg = None.
Proof.
  unfold contains_token. intros H.
  destruct (js_match Parser.re_order_status msg) as [m|] eqn:E;
    [|reflexivity].
  unfold js_match, Parser.re_order_status in E. cbn [seqs] in E.
  apply search_needs_literal in E.
  change (Js.toUpperCase "STATUS") with "STATUS" in E. congruence.
Qed.

(** What a successful order update returns. *)
Lemma updateOrder_ok now key d table o' table' :
  Orders.updateOrder now key d table = Ok (o', table') ->
  match table !! key with
  | Some o => o' = Orders.patch d now o
  | None => o' = Orders.create key d now
  end.
Proof.
  unfold Orders.updateOrder. intros H. apply rethrow_ok in H.
  destruct (Orders.validate InvalidStage _ _); [|discriminate].
  destruct (Orders.validate InvalidStatus _ _); [|discriminate].
  destruct (Orders.validate InvalidPriority _ _); [|discriminate].
  unfold mbind, result_bind in H. apply upsert_ok in H. apply H.
Qed.

(** C6 (as stated) fails: the message "ORD1024 STAGE=Shipping" does not
    mention STATUS and targets an order that exists and is on hold; the
    extraction output carries status Active and the merge makes the order
    Active. *)
Lemma stage_message_reactivates_held_order :
  match Parser.parseOrderUpdate (JString shipping_text) with
  | Some p =>
      Parser.po_status p = Some "Active" /\
      order_book !! Parser.po_order_id p = Some held_order /\
      Orders.status held_order = "OnHold" /\
      match Orders.updateOrder 2000 (Parser.po_order_id p)
                               (Orders.of_parsed p) order_book with
      | Ok (o', _) => Orders.status o' = "Active"
      | Err _ => False
      end
  | None => False
  end.
Proof. vm_compute. repeat split; reflexivity. Qed.

(** C6 (amended): in order extraction the status defaults to Active whenever
    the message does not mention STATUS, whether or not the order exists: the
    extraction output then contains status Active, and the subsequent merge
    into an existing order, when it succeeds, sets that order's status to
    Active. *)
Theorem status_defaults_to_active_on_every_message msg p :
  Parser.parseOrderUpdate (JString msg) = Some p ->
  contains_token "STATUS" msg = false ->
  Parser.po_status p = Some "Active" /\
  forall now table o o' table',
    table !! Parser.po_order_id p = Some o ->
    Orders.updateOrder now (Parser.po_order_id p) (Orders.of_parsed p) table
      = Ok (o', table') ->
    Orders.status o' = "Active".
Proof.
  intros Hp Hs.
  assert (Hst : Parser.po_status p = Some "Active").
  { unfold Parser.parseOrderUpdate in Hp.
    destruct msg as [|c msg]; [discriminate|]. cbn [Js.truthy negb] in Hp.
    destruct (js_match Parser.re_order_id (String c msg)); [|discriminate].
    rewrite (no_status_no_match _ Hs) in Hp.
    injection Hp as <-. reflexivity. }
  split; [exact Hst|].
  intros now table o o' table' Hlk Hok.
  apply updateOrder_ok in Hok. rewrite Hlk in Hok. subst o'.
  cbn. rewrite Hst. reflexivity.
Qed.

Lemma status_defaults_to_active_on_every_message_witness :
  Parser.parseOrderUpdate (JString shipping_text) = Some shipping_parsed /\
  contains_token "STATUS" shipping_text = false /\
  Parser.po_status shipping_parsed = Some "Active" /\
  Orders.updateOrder 2000 "ORD1024" (Orders.of_parsed shipping_parsed)
                     order_book
    = Ok (held_order_shipped, <["ORD1024" := held_order_shipped]> order_book) /\
  Orders.status held_order_shipped = "Active".
Proof.
  split; [reflexivity|]. split; [reflexivity|].
  destruct (status_defaults_to_active_on_every_message
              shipping_text shipping_parsed eq_refl eq_refl) as [H1 H2].
  split; [exact H1|]. split; [reflexivity|].
  apply (H2 2000%Z order_book held_order held_order_shipped
            (<["ORD1024" := held_order_shipped]> order_book));
    reflexivity.
Defined.

(* ===================================================================== *)
(** ** Further properties of the code *)
(* ===================================================================== *)

(** *** The machine validator *)

Ltac validator_step HE HI :=
  repeat (cbn [Machines.d_status Machines.d_error_message Machines.d_output
               Machines.with_error_message Machines.with_output
               truthy_field field_is Js.truthy negb andb
               Machines.output_given_nonzero Z.eqb];
          rewrite ?HE, ?HI).

(** X1: validating twice is validating once. *)
Theorem applyStatusValidation_idempotent d :
  Machines.applyStatusValidation (Machines.applyStatusValidation d)
  = Machines.applyStatusValidation d.
Proof.
  destruct d as [mid nm st out em op].
  destruct st as [| |s]; [reflexivity|reflexivity|].
  destruct (String.eqb_spec s "Error") as [->|HE].
  { destruct em as [| |[|c e]], out as [| |[|z|z]]; reflexivity. }
  destruct (String.eqb_spec s "Idle") as [->|HI].
  { destruct em as [| |[|c e]], out as [| |[|z|z]]; reflexivity. }
  apply String.eqb_neq in HE, HI.
  destruct s as [|c0 s]; [reflexivity|].
  destruct em as [| |[|c e]], out as [| |[|z|z]];
    unfold Machines.applyStatusValidation; validator_step HE HI;
    reflexivity.
Qed.

(** X2: the validator touches nothing but the error description and the
    output, and returns the data as it is when the status is missing, null
    or empty. *)
Theorem applyStatusValidation_frame d :
  let v := Machines.applyStatusValidation d in
  Machines.d_machine_id v = Machines.d_machine_id d /\
  Machines.d_name v = Machines.d_name d /\
  Machines.d_status v = Machines.d_status d /\
  Machines.d_operator v = Machines.d_operator d /\
  (if truthy_field (Machines.d_status d) then True else v = d).
Proof.
  cbv zeta. unfold Machines.applyStatusValidation.
  destruct d as [mid nm st out em op].
  cbn [Machines.d_status Machines.d_error_message Machines.d_output].
  destruct st as [| |[|c st]];
    cbn [truthy_field field_is Js.truthy String.eqb andb negb];
    try (repeat split; reflexivity).
  repeat match goal with
         | |- context [if ?b then _ else _] =>
             lazymatch b with
             | context [if _ then _ else _] => fail
             | _ => destruct b
             end
         end; repeat split; reflexivity.
Qed.

(** *** Single-record upserts *)

Section UpsertFrame.
Context {Row : Type} (key_of : Row -> string) (column : string).

(** A successful upsert stores the row it returns under the row's own key
    and leaves every other key of the table alone. *)
Lemma upsert_stored key chk patch create (table : gmap string Row) row table' :
  key_of create = key ->
  Prisma.upsert key_of column key chk patch create table = Ok (row, table') ->
  table' !! key_of row = Some row /\
  forall k, k <> key -> k <> key_of row -> table' !! k = table !! k.
Proof.
  unfold Prisma.upsert. intros Hc.
  destruct chk as [[]|e]; [|discriminate].
  unfold mbind, result_bind.
  destruct (table !! key) as [old|] eqn:Hlk.
  - destruct (String.eqb_spec (key_of (patch old)) key) as [Heq|Hneq].
    + intros [= <- <-]. rewrite Heq. split; [apply lookup_insert_eq|].
      intros k Hk _. now rewrite lookup_insert_ne by congruence.
    + destruct (table !! key_of (patch old)); [discriminate|].
      intros [= <- <-]. split; [apply lookup_insert_eq|].
      intros k Hk Hk'. rewrite lookup_insert_ne by congruence.
      now rewrite lookup_delete_ne by congruence.
  - intros [= <- <-]. rewrite Hc. split; [apply lookup_insert_eq|].
    intros k Hk _. now rewrite lookup_insert_ne by congruence.
Qed.
End UpsertFrame.





Section UpsertRows.
Context {Row : Type} (key_of : Row -> string) (column : string).

(** After a successful upsert every row of the table is the returned row or
    a row that was there before. *)
Lemma upsert_rows key chk patch create (table : gmap string Row) row table' :
  Prisma.upsert key_of column key chk patch create table = Ok (row, table') ->
  forall k r, table' !! k = Some r -> r = row \/ table !! k = Some r.
Proof.
  unfold Prisma.upsert.
  destruct chk as [[]|e]; [|discriminate].
  unfold mbind, result_bind.
  assert (Hins : forall k0 (t : gmap string Row) k r,
            <[k0 := row]> t !! k = Some r -> r = row \/ t !! k = Some r).
  { intros k0 t k r. destruct (decide (k0 = k)) as [->|Hne].
    - rewrite lookup_insert_eq. intros [= <-]. now left.
    - rewrite lookup_insert_ne by exact Hne. now right. }
  destruct (table !! key) as [old|] eqn:Hlk.
  - destruct (String.eqb (key_of (patch old)) key).
    + intros [= <- <-]. apply Hins.
    + destruct (table !! key_of (patch old)); [discriminate|].
      intros [= <- <-] k r Hk. apply Hins in Hk.
      destruct Hk as [Hk|Hk]; [now left|right].
      destruct (decide (key = k)) as [->|Hne].
      * rewrite lookup_delete_eq in Hk. discriminate.
      * now rewrite lookup_delete_ne in Hk by exact Hne.
  - intros [= <- <-]. apply Hins.
Qed.
End UpsertRows.

Lemma machines_stay_valid now key d table m' table' :
  machine_statuses_valid table ->
  Machines.d_status d <> Value "" ->
  Machines.updateMachine now key d table = Ok (m', table') ->
  machine_statuses_valid table'.
Proof.
  intros Hv Hne Hok.
  assert (Hm' : In (Machines.status m') Machines.VALID_STATUSES).
  { pose proof (applyStatusValidation_status d) as Hst.
    pose proof (updateMachine_ok _ _ _ _ _ _ Hok) as [Hchk Hrow].
    cbv zeta in Hchk, Hrow.
    destruct (Machines.d_status d) as [| |s] eqn:Hs.
    - destruct (table !! key) as [m|] eqn:Hlk; subst m'; cbn; rewrite Hst;
        cbn; [exact (Hv _ _ Hlk)|tauto].
    - unfold Machines.check in Hchk. rewrite Hst in Hchk.
      destruct (Prisma.require "machine_id" _); [|discriminate].
      destruct (Prisma.require "name" _); discriminate.
    - assert (s <> "") by congruence.
      pose proof (updateMachine_status_valid _ _ _ _ _ _ Hok Hs H) as Hin.
      assert (Hs' : In s Machines.VALID_STATUSES).
      { apply valid_status_cases in Hin.
        destruct Hin as [-> | [-> | [-> | ->]]]; cbn; tauto. }
      destruct (table !! key) as [m|]; subst m'; cbn; rewrite Hst; cbn;
        [exact Hs'|]. destruct s; [congruence|exact Hs']. }
  unfold Machines.updateMachine in Hok.
  destruct (truthy_field _ && _); [discriminate|].
  apply rethrow_ok in Hok. intros k m Hk.
  destruct (upsert_rows _ _ _ _ _ _ _ _ _ Hok k m Hk) as [->|Hold];
    [exact Hm'|exact (Hv _ _ Hold)].
Qed.

(** X5: a table in which every machine has one of the four statuses stays
    so under every successful update whose status is not the empty
    string. *)
Theorem updateMachine_keeps_statuses_valid now key d table m' table' :
  machine_statuses_valid table ->
  Machines.d_status d <> Value "" ->
  Machines.updateMachine now key d table = Ok (m', table') ->
  machine_statuses_valid table'.
Proof. apply machines_stay_valid. Qed.

Lemma floor_statuses_valid : machine_statuses_valid floor.
Proof.
  intros k m H. unfold floor in H.
  apply lookup_singleton_Some in H. destruct H as [_ <-].
  cbn. tauto.
Qed.

Lemma updateMachine_keeps_statuses_valid_witness :
  machine_statuses_valid floor /\
  Machines.d_status (status_only "Idle") <> Value "" /\
  Machines.updateMachine 2000 "M01" (status_only "Idle") floor
    = Ok (press_idle, <["M01" := press_idle]> floor) /\
  machine_statuses_valid (<["M01" := press_idle]> floor).
Proof.
  split; [exact floor_statuses_valid|]. split; [discriminate|].
  split; [reflexivity|].
  apply (updateMachine_keeps_statuses_valid
           2000 "M01" (status_only "Idle") floor press_idle);
    [exact floor_statuses_valid|discriminate|reflexivity].
Defined.

(** X6: the empty string passes the status check: an update whose status
    is the empty string, when it succeeds, writes the empty status to an
    existing machine, and creates a machine that is not yet known as
    Idle. *)
Theorem empty_status_is_written now key d table m' table' :
  Machines.d_status d = Value "" ->
  Machines.updateMachine now key d table = Ok (m', table') ->
  Machines.status m' =
  match table !! key with Some _ => "" | None => "Idle" end.
Proof.
  intros Hs Hok.
  pose proof (applyStatusValidation_status d) as Hst. rewrite Hs in Hst.
  apply updateMachine_ok in Hok. cbv zeta in Hok. destruct Hok as [_ Hrow].
  destruct (table !! key); subst m'; cbn; now rewrite Hst.
Qed.

Lemma empty_status_is_written_witness :
  Machines.d_status (status_only "") = Value "" /\
  Machines.updateMachine 2000 "M01" (status_only "") floor
    = Ok (press_blank, <["M01" := press_blank]> floor) /\
  Machines.status press_blank = "".
Proof.
  split; [reflexivity|]. split; [reflexivity|].
  exact (empty_status_is_written 2000 "M01" (status_only "") floor
           press_blank (<["M01" := press_blank]> floor) eq_refl eq_refl).
Defined.

Lemma floor_keyed : keyed Machines.machine_id floor.
Proof.
  intros k m H. unfold floor in H.
  apply lookup_singleton_Some in H. destruct H as [<- <-].
  reflexivity.
Qed.

(** X7: a successful machine update keeps every row of the table under its
    own machine_id. *)
Theorem updateMachine_keeps_rows_keyed now key d table m' table' :
  keyed Machines.machine_id table ->
  Machines.updateMachine now key d table = Ok (m', table') ->
  keyed Machines.machine_id table'.
Proof. apply updateMachine_keyed. Qed.

Lemma updateMachine_keeps_rows_keyed_witness :
  keyed Machines.machine_id floor /\
  Machines.updateMachine 2000 "M02" (status_only "Idle") floor
    = Ok (idle_lathe, <["M02" := idle_lathe]> floor) /\
  keyed Machines.machine_id (<["M02" := idle_lathe]> floor).
Proof.
  split; [exact floor_keyed|]. split; [reflexivity|].
  apply (updateMachine_keeps_rows_keyed
           2000 "M02" (status_only "Idle") floor idle_lathe);
    [exact floor_keyed|reflexivity].
Defined.

(** *** Batches and keys *)

Section BatchKeys.
Context {Item Row : Type}.
Variable key_of : Item -> field string.
Variable row_key : Row -> string.
Variable update :
  Z -> string -> Item -> gmap string Row -> result (Row * gmap string Row).
Variable clock : nat -> Z.

(** The upsert of an item that carries its own key returns a row of that
    key and leaves the other keys alone. *)
Hypothesis update_own_key : forall now key item table row table',
  key_of item = Value key ->
  update now key item table = Ok (row, table') ->
  row_key row = key /\ forall k, k <> key -> table' !! k = table !! k.

Lemma truthy_field_value (f : field string) :
  truthy_field f = true -> f = Value (field_nullish f "").
Proof. destruct f; cbn; congruence. Qed.

Lemma batch_loop_keys : forall items i table,
  Forall2 (outcome_matches_key key_of row_key) items
          (fst (batch_loop key_of update clock i items table)) /\
  forall k, (forall item, In item items -> key_of item <> Value k) ->
            snd (batch_loop key_of update clock i items table) !! k
            = table !! k.
Proof.
  induction items as [|x xs IH]; intros i table; cbn [batch_loop].
  - split; [constructor|reflexivity].
  - unfold batch_step.
    destruct (truthy_field (key_of x)) eqn:Ht; cbn [negb].
    + pose proof (truthy_field_value _ Ht) as Hkey.
      destruct (update (clock i) (field_nullish (key_of x) "") x table)
        as [[row t1]|e] eqn:Hu.
      * destruct (update_own_key _ _ _ _ _ _ Hkey Hu) as [Hrk Hframe].
        specialize (IH (S i) t1).
        destruct (batch_loop key_of update clock (S i) xs t1) as [os t2].
        cbn [fst snd] in *. destruct IH as [IH1 IH2]. split.
        -- constructor; [|exact IH1]. cbn. now rewrite Hrk.
        -- intros k Hk. rewrite IH2 by (intros; apply Hk; now right).
           apply Hframe. intros ->. apply (Hk x); [now left|exact Hkey].
      * specialize (IH (S i) table).
        destruct (batch_loop key_of update clock (S i) xs table) as [os t2].
        cbn [fst snd] in *. destruct IH as [IH1 IH2]. split.
        -- constructor; [exact Hkey|exact IH1].
        -- intros k Hk. apply IH2. intros; apply Hk; now right.
    + specialize (IH (S i) table).
      destruct (batch_loop key_of update clock (S i) xs table) as [os t2].
      cbn [fst snd] in *. destruct IH as [IH1 IH2]. split.
      * constructor; [exact Ht|exact IH1].
      * intros k Hk. apply IH2. intros; apply Hk; now right.
Qed.
End BatchKeys.

Lemma applyStatusValidation_machine_id d :
  Machines.d_machine_id (Machines.applyStatusValidation d)
  = Machines.d_machine_id d.
Proof.
  unfold Machines.applyStatusValidation.
  repeat match goal with |- context [if ?b then _ else _] => destruct b end;
    reflexivity.
Qed.

Lemma updateMachine_own_key now key d table m' table' :
  Machines.d_machine_id d = Value key ->
  Machines.updateMachine now key d table = Ok (m', table') ->
  Machines.machine_id m' = key /\
  forall k, k <> key -> table' !! k = table !! k.
Proof.
  intros Hd Hok.
  assert (Hk : Machines.machine_id m' = key).
  { pose proof (updateMachine_ok _ _ _ _ _ _ Hok) as [_ Hrow].
    cbv zeta in Hrow.
    pose proof (applyStatusValidation_machine_id d) as Hid.
    destruct (table !! key); subst m'; cbn; [|reflexivity].
    now rewrite Hid, Hd. }
  split; [exact Hk|].
  unfold Machines.updateMachine in Hok.
  destruct (truthy_field _ && _); [discriminate|].
  apply rethrow_ok in Hok. apply upsert_stored in Hok; [|reflexivity].
  destruct Hok as [_ H]. intros k Hne. apply H; congruence.
Qed.

Lemma updateOrder_own_key now key d table o' table' :
  Orders.d_order_id d = Value key ->
  Orders.updateOrder now key d table = Ok (o', table') ->
  Orders.order_id o' = key /\
  forall k, k <> key -> table' !! k = table !! k.
Proof.
  intros Hd Hok.
  assert (Hk : Orders.order_id o' = key).
  { pose proof (updateOrder_ok _ _ _ _ _ _ Hok) as Hrow.
    destruct (table !! key); subst o'; cbn; [|reflexivity].
    now rewrite Hd. }
  split; [exact Hk|].
  unfold Orders.updateOrder in Hok. apply rethrow_ok in Hok.
  destruct (Orders.validate InvalidStage _ _); [|discriminate].
  destruct (Orders.validate InvalidStatus _ _); [|discriminate].
  destruct (Orders.validate InvalidPriority _ _); [|discriminate].
  unfold mbind, result_bind in Hok.
  apply upsert_stored in Hok; [|reflexivity].
  destruct Hok as [_ H]. intros k Hne. apply H; congruence.
Qed.

(** X8: in a machine batch every success outcome is the record of the
    machine_id its item carries, every failure names that machine_id, a
    missing-key failure belongs to an item without one, and the machines
    that no item names are left as they were. *)
Theorem batchUpdateMachines_touches_named_keys clock items table results final :
  batchUpdateMachines clock (ArrayOf items) table = Ok (results, final) ->
  Forall2 (outcome_matches_key Machines.d_machine_id Machines.machine_id)
          items results /\
  forall k,
    (forall item, In item items -> Machines.d_machine_id item <> Value k) ->
    final !! k = table !! k.
Proof.
  unfold batchUpdateMachines, batchUpdate, rethrow. intros [= H].
  pose proof (batch_loop_keys Machines.d_machine_id Machines.machine_id
                Machines.updateMachine clock updateMachine_own_key
                items 0%nat table) as [H1 H2].
  rewrite H in H1, H2. exact (conj H1 H2).
Qed.

Lemma batchUpdateMachines_touches_named_keys_witness :
  batchUpdateMachines still (ArrayOf two_machines) floor
    = Ok ([Success lathe_by_batch; KeyRequired],
          <["M02" := lathe_by_batch]> floor) /\
  Machines.machine_id lathe_by_batch = "M02" /\
  (<["M02" := lathe_by_batch]> floor) !! "M01" = floor !! "M01".
Proof.
  split; [reflexivity|].
  destruct (batchUpdateMachines_touches_named_keys
              still two_machines floor
              [Success lathe_by_batch; KeyRequired]
              (<["M02" := lathe_by_batch]> floor) eq_refl) as [H1 H2].
  split; [reflexivity|]. apply H2.
  intros item [<-|[<-|[]]]; discriminate.
Defined.

(** X9: the same for an order batch: outcomes belong to the order_id their
    items carry, and the orders that no item names are left as they were. *)
Theorem batchUpdateOrders_touches_named_keys clock items table results final :
  batchUpdateOrders clock (ArrayOf items) table = Ok (results, final) ->
  Forall2 (outcome_matches_key Orders.d_order_id Orders.order_id)
          items results /\
  forall k,
    (forall item, In item items -> Orders.d_order_id item <> Value k) ->
    final !! k = table !! k.
Proof.
  unfold batchUpdateOrders, batchUpdate, rethrow. intros [= H].
  pose proof (batch_loop_keys Orders.d_order_id Orders.order_id
                Orders.updateOrder clock updateOrder_own_key
                items 0%nat table) as [H1 H2].
  rewrite H in H1, H2. exact (conj H1 H2).
Qed.

Lemma batchUpdateOrders_touches_named_keys_witness :
  batchUpdateOrders ticking (ArrayOf three_orders) order_book
    = Ok ([ Success (fresh_order "ORD1" 1000); KeyRequired;
            Success (fresh_order "ORD3" 1002) ],
          <["ORD3" := fresh_order "ORD3" 1002]>
            (<["ORD1" := fresh_order "ORD1" 1000]> order_book)) /\
  (<["ORD3" := fresh_order "ORD3" 1002]>
     (<["ORD1" := fresh_order "ORD1" 1000]> order_book)) !! "ORD1024"
    = order_book !! "ORD1024".
Proof.
  split; [reflexivity|].
  destruct (batchUpdateOrders_touches_named_keys
              ticking three_orders order_book
              [ Success (fresh_order "ORD1" 1000); KeyRequired;
                Success (fresh_order "ORD3" 1002) ]
              (<["ORD3" := fresh_order "ORD3" 1002]>
                 (<["ORD1" := fresh_order "ORD1" 1000]> order_book))
              eq_refl) as [H1 H2].
  apply H2. intros item [<-|[<-|[<-|[]]]]; discriminate.
Defined.

(** *** The normalizers *)

Lemma eqb_lower_upper l c :
  Js.is_lower l = true -> Ascii.eqb l (Js.upper_char c) = false.
Proof.
  intros Hl. destruct (Ascii.eqb_spec l (Js.upper_char c)) as [->|]; auto.
  now rewrite upper_char_not_lower in Hl.
Qed.

Lemma upper_lower_char c : Js.upper_char (Js.lower_char c) = Js.upper_char c.
Proof. destruct c as [[] [] [] [] [] [] [] []]; reflexivity. Qed.

(** A stem that starts with a lower-case letter is searched for behind the
    upper-cased first character only. *)
Lemma includes_behind_first l stem c t :
  Js.is_lower l = true ->
  Js.includes (String (Js.upper_char c) t) (String l stem)
  = Js.includes t (String l stem).
Proof.
  intros Hl. cbn [Js.includes Js.startsWith].
  now rewrite (eqb_lower_upper l c Hl).
Qed.

Lemma titleCase_cons c rest :
  titleCase (String c rest) = String (Js.upper_char c) (Js.toLowerCase rest).
Proof. reflexivity. Qed.

(** X10: the machine-status normalizer decides on the word behind its first
    character: the stems are searched, in their order, in the lower-cased
    rest of the word, and a word without a stem there comes back
    title-cased; both copies of the function do so. *)
Theorem normalizeMachineStatus_reads_behind_first_char c rest :
  Parser.normalizeMachineStatus (String c rest) =
    (let t := Js.toLowerCase rest in
     if Js.includes t "run" then "Running"
     else if Js.includes t "idle" then "Idle"
     else if Js.includes t "maintain" then "Maintenance"
     else if Js.includes t "error" || Js.includes t "down" then "Error"
     else String (Js.upper_char c) t) /\
  MachineUtils.normalizeStatus (String c rest)
    = Parser.normalizeMachineStatus (String c rest).
Proof.
  split; [|reflexivity].
  unfold Parser.normalizeMachineStatus. rewrite titleCase_cons.
  rewrite !includes_behind_first by reflexivity. reflexivity.
Qed.

(** X11: the order-stage normalizer decides on the word behind its first
    character in the same way. *)
Theorem normalizeOrderStage_reads_behind_first_char c rest :
  Parser.normalizeOrderStage (String c rest) =
    (let t := Js.toLowerCase rest in
     if Js.includes t "plan" then "Planning"
     else if Js.includes t "product" then "Production"
     else if Js.includes t "quality" || Js.includes t "qc" then "Quality"
     else if Js.includes t "pack" then "Packaging"
     else if Js.includes t "ship" then "Shipping"
     else if Js.includes t "complete" || Js.includes t "done"
          then "Completed"
     else String (Js.upper_char c) t).
Proof.
  unfold Parser.normalizeOrderStage. rewrite titleCase_cons.
  rewrite !includes_behind_first by reflexivity. reflexivity.
Qed.

(** A word that is a given name up to letter case is title-cased to the
    title-cased name. *)
Lemma titleCase_case_insensitive w name :
  Js.toLowerCase w = Js.toLowerCase name -> titleCase w = titleCase name.
Proof.
  destruct w as [|c w], name as [|d name]; cbn; try discriminate;
    [reflexivity|].
  intros [= Hc Hrest]. rewrite !titleCase_cons.
  rewrite <- (upper_lower_char c), <- (upper_lower_char d), Hc.
  change (Js.map_chars Js.lower_char w) with (Js.toLowerCase w) in Hrest.
  change (Js.map_chars Js.lower_char name) with (Js.toLowerCase name) in Hrest.
  now rewrite Hrest.
Qed.

(** X12: the canonical names pass through the normalizers in any letter
    case: a word that is a machine status, or an order stage, up to case
    comes back in its canonical spelling. *)
Theorem canonical_names_are_kept w name :
  Js.toLowerCase w = Js.toLowerCase name ->
  (In name Machines.VALID_STATUSES ->
   Parser.normalizeMachineStatus w = name) /\
  (In name Orders.VALID_STAGES -> Parser.normalizeOrderStage w = name).
Proof.
  intros H. apply titleCase_case_insensitive in H.
  unfold Parser.normalizeMachineStatus, Parser.normalizeOrderStage.
  rewrite H. split; cbn [In Machines.VALID_STATUSES Orders.VALID_STAGES];
    intros Hin;
    repeat (destruct Hin as [<-|Hin]; [vm_compute; reflexivity|]);
    destruct Hin.
Qed.

Lemma canonical_names_are_kept_witness :
  Js.toLowerCase "MAINTENANCE" = Js.toLowerCase "Maintenance" /\
  Parser.normalizeMachineStatus "MAINTENANCE" = "Maintenance" /\
  Js.toLowerCase "packaging" = Js.toLowerCase "Packaging" /\
  Parser.normalizeOrderStage "packaging" = "Packaging".
Proof.
  split; [reflexivity|]. split.
  - destruct (canonical_names_are_kept "MAINTENANCE" "Maintenance" eq_refl)
      as [H _].
    apply H. right. right. left. reflexivity.
  - split; [reflexivity|].
    destruct (canonical_names_are_kept "packaging" "Packaging" eq_refl)
      as [_ H].
    apply H. right. right. right. left. reflexivity.
Defined.

(** *** The order statistics *)

Ltac eval_closed_eqb :=
  repeat match goal with
         | |- context [String.eqb ?a ?b] =>
             let r := eval vm_compute in (String.eqb a b) in
             lazymatch r with
             | true => change (String.eqb a b) with true
             | false => change (String.eqb a b) with false
             end
         end.

Ltac count_case o f v :=
  let E := fresh "E" in
  destruct (String.eqb_spec (f o) v) as [E|?];
  [rewrite ?E; eval_closed_eqb; cbn [length orb Nat.add]; lia|].

(** X13: the four status counters of the order statistics count exactly the
    orders whose status is one of the four valid names, the six stage
    counters the orders with a valid stage and the four priority counters
    the orders with a valid priority; none of the three sums exceeds the
    total. *)
Theorem statistics_count_the_valid_orders orders :
  let s := OrderService.statistics orders in
  (OrderService.active s + OrderService.on_hold s
   + OrderService.completed s + OrderService.cancelled s
   = length (with_valid Orders.status Orders.VALID_STATUSES orders))%nat /\
  (OrderService.stage_planning s + OrderService.stage_production s
   + OrderService.stage_quality s + OrderService.stage_packaging s
   + OrderService.stage_shipping s + OrderService.stage_completed s
   = length (with_valid Orders.stage Orders.VALID_STAGES orders))%nat /\
  (OrderService.priority_low s + OrderService.priority_medium s
   + OrderService.priority_high s + OrderService.priority_urgent s
   = length (with_valid Orders.priority Orders.VALID_PRIORITIES orders))%nat /\
  (length (with_valid Orders.status Orders.VALID_STATUSES orders)
   <= OrderService.total_orders s)%nat /\
  (length (with_valid Orders.stage Orders.VALID_STAGES orders)
   <= OrderService.total_orders s)%nat /\
  (length (with_valid Orders.priority Orders.VALID_PRIORITIES orders)
   <= OrderService.total_orders s)%nat.
Proof.
  cbv zeta. unfold OrderService.statistics, with_valid.
  cbn [OrderService.active OrderService.on_hold OrderService.completed
       OrderService.cancelled OrderService.stage_planning
       OrderService.stage_production OrderService.stage_quality
       OrderService.stage_packaging OrderService.stage_shipping
       OrderService.stage_completed OrderService.priority_low
       OrderService.priority_medium OrderService.priority_high
       OrderService.priority_urgent OrderService.total_orders].
  unfold OrderService.count_where, Machines.list_includes,
    Orders.VALID_STATUSES, Orders.VALID_STAGES, Orders.VALID_PRIORITIES.
  cbn [existsb].
  repeat split; try apply List.filter_length_le;
    induction orders as [|o orders IH]; try reflexivity;
    cbn [List.filter].
  - count_case o Orders.status "Active".
    count_case o Orders.status "OnHold".
    count_case o Orders.status "Completed".
    count_case o Orders.status "Cancelled".
    repeat match goal with
           | H : _ <> _ |- _ => apply String.eqb_neq in H; rewrite H; clear H
           end.
    cbn [orb]. exact IH.
  - count_case o Orders.stage "Planning".
    count_case o Orders.stage "Production".
    count_case o Orders.stage "Quality".
    count_case o Orders.stage "Packaging".
    count_case o Orders.stage "Shipping".
    count_case o Orders.stage "Completed".
    repeat match goal with
           | H : _ <> _ |- _ => apply String.eqb_neq in H; rewrite H; clear H
           end.
    cbn [orb]. exact IH.
  - count_case o Orders.priority "Low".
    count_case o Orders.priority "Medium".
    count_case o Orders.priority "High".
    count_case o Orders.priority "Urgent".
    repeat match goal with
           | H : _ <> _ |- _ => apply String.eqb_neq in H; rewrite H; clear H
           end.
    cbn [orb]. exact IH.
Qed.

(** *** The zone of a safety area *)

Lemma startsWith_area_append c z :
  Js.startsWith "_Area" (String c z) = false ->
  Js.startsWith "_Area" (String c z ++ "_Area") = false.
Proof.
  destruct z as [|c2 [|c3 [|c4 [|c5 z]]]];
    rewrite ?append_cons, ?append_nil_l; cbn [Js.startsWith];
    try (intros H; exact H);
    intros _;
    repeat match goal with
           | |- context [Ascii.eqb ?a ?b] =>
               lazymatch b with
               | Ascii _ _ _ _ _ _ _ _ => fail
               | _ => destruct (Ascii.eqb a b)
               end
           end; reflexivity.
Qed.

Lemma remove_first_suffix zone :
  Js.includes zone "_Area" = false ->
  remove_first "_Area" (zone ++ "_Area") = zone.
Proof.
  induction zone as [|c z IH]; [reflexivity|].
  cbn [Js.includes]. intros H. apply orb_false_iff in H.
  destruct H as [Hhere Hlater].
  apply startsWith_area_append in Hhere.
  rewrite append_cons in *. cbn [remove_first]. rewrite Hhere.
  now rewrite (IH Hlater).
Qed.

(** X14: an area created without a zone gets its zone from its name: for a
    name that is a zone followed by "_Area", where the zone itself does not
    contain "_Area", the new record's zone is that zone and its PPE list,
    risk level and status are the defaults. *)
Theorem new_area_zone_from_name now zone d table a table' :
  Js.includes zone "_Area" = false ->
  truthy_field (Safety.d_zone d) = false ->
  table !! (zone ++ "_Area") = None ->
  Safety.updateSafetyArea now (zone ++ "_Area") d table = Ok (a, table') ->
  Safety.zone a = zone /\
  Safety.area_name a = zone ++ "_Area" /\
  Safety.ppe_required a
    = field_or (Safety.d_ppe_required d) "Helmet,Gloves,Safety Shoes" /\
  Safety.risk_level a = field_or (Safety.d_risk_level d) "Medium" /\
  Safety.status a = field_or (Safety.d_status d) "Safe".
Proof.
  intros Hz Hd Hlk Hok. unfold Safety.updateSafetyArea in Hok.
  apply rethrow_ok in Hok.
  destruct (Orders.validate InvalidStatus _ _); [|discriminate].
  destruct (Orders.validate Safety.InvalidRiskLevel _ _); [|discriminate].
  unfold mbind, result_bind in Hok. apply upsert_ok in Hok.
  destruct Hok as [_ Hrow]. rewrite Hlk in Hrow. subst a.
  cbn [Safety.create Safety.zone Safety.area_name Safety.ppe_required
       Safety.risk_level Safety.status].
  repeat split.
  rewrite (remove_first_suffix zone Hz).
  destruct (Safety.d_zone d) as [| |s]; try reflexivity.
  cbn in Hd |- *. now rewrite Hd.
Qed.

Lemma new_area_zone_from_name_witness :
  Js.includes "Paint" "_Area" = false /\
  Safety.updateSafetyArea 2000 ("Paint" ++ "_Area") no_safety_fields ∅
    = Ok (paint_area, <["Paint_Area" := paint_area]> ∅) /\
  Safety.zone paint_area = "Paint".
Proof.
  split; [reflexivity|].
  assert (Hok : Safety.updateSafetyArea 2000 ("Paint" ++ "_Area")
                  no_safety_fields ∅
                = Ok (paint_area, <["Paint_Area" := paint_area]> ∅))
    by reflexivity.
  split; [exact Hok|].
  destruct (new_area_zone_from_name
              2000 "Paint" no_safety_fields ∅ paint_area
              (<["Paint_Area" := paint_area]> ∅)
              eq_refl eq_refl (lookup_empty _) Hok) as [H _].
  exact H.
Defined.

(** *** The webhook *)

Lemma processMessages_stop clock bad ys e : forall xs i w,
  Webhook.processIncomingMessage
    (clock (i + length xs)%nat) bad (Webhook.processMessages clock i xs w)
    = Err e ->
  Webhook.processMessages clock i (xs ++ bad :: ys)%list w
  = Webhook.processMessages clock i xs w.
Proof.
  induction xs as [|x xs IH]; intros i w.
  - cbn [length app Webhook.processMessages]. rewrite Nat.add_0_r.
    now intros ->.
  - cbn [length Webhook.processMessages].
    change ((x :: xs) ++ bad :: ys)%list with (x :: (xs ++ bad :: ys))%list.
    cbn [Webhook.processMessages].
    destruct (Webhook.processIncomingMessage (clock i) x w) as [[u w']|e'];
      [|reflexivity].
    intros H. apply IH.
    now replace (S i + length xs)%nat with (i + S (length xs))%nat by lia.
Qed.

(** X15: a message that fails ends the webhook's message loop: when a
    message of one call throws on the tables the messages before it left,
    the messages behind it are not processed, and the tables stay as the
    earlier messages left them. *)
Theorem webhook_drops_messages_behind_a_failure clock xs bad ys w e :
  Webhook.processIncomingMessage
    (clock (length xs)) bad (Webhook.processMessages clock 0 xs w) = Err e ->
  Webhook.processMessages clock 0 (xs ++ bad :: ys)%list w
  = Webhook.processMessages clock 0 xs w.
Proof. apply (processMessages_stop clock bad ys e xs 0%nat w). Qed.

Lemma webhook_drops_messages_behind_a_failure_witness :
  Webhook.processIncomingMessage
    (still 1%nat) "M03 STATUS=down"
    (Webhook.processMessages still 0 ["M02 STATUS=Idle"] empty_world)
    = Err (FailedToUpdate "M03" (InvalidStatus "Down")) /\
  Webhook.processMessages still 0
    (["M02 STATUS=Idle"] ++ "M03 STATUS=down" :: ["M04 STATUS=Idle"])%list
    empty_world
  = Webhook.processMessages still 0 ["M02 STATUS=Idle"] empty_world.
Proof.
  split; [vm_compute; reflexivity|].
  apply (webhook_drops_messages_behind_a_failure
           still ["M02 STATUS=Idle"] "M03 STATUS=down" ["M04 STATUS=Idle"]
           empty_world (FailedToUpdate "M03" (InvalidStatus "Down"))).
  vm_compute; reflexivity.
Defined.

(** *** Order keys *)

Lemma take_drop_while p s : s = take_while p s ++ drop_while p s.
Proof.
  induction s as [|c s IH]; [reflexivity|]. cbn.
  destruct (p c); [|reflexivity]. rewrite append_cons. now rewrite <- IH.
Qed.

Lemma all_chars_take_while p s : all_chars p (take_while p s) = true.
Proof.
  induction s as [|c s IH]; [reflexivity|]. cbn.
  destruct (p c) eqn:E; [|reflexivity]. cbn. now rewrite E, IH.
Qed.

Lemma run_chr {A} p st (k : mstate -> option A) :
  run (Chr p) st k =
  match rest st with
  | EmptyString => None
  | String c s' => if p c then k (MState (Some c) s' (caps st)) else None
  end.
Proof. reflexivity. Qed.

(** A greedy loop over a character class stops behind the last character
    of the class. *)
Lemma star_chr p : forall fuel st,
  (String.length (rest st) < fuel)%nat ->
  exists st',
    star_loop (fun st0 k' => run (Chr p) st0 k') true Some fuel st = Some st' /\
    rest st' = drop_while p (rest st).
Proof.
  induction fuel as [|fuel IH]; intros st Hlen; [lia|].
  cbn [star_loop]. rewrite run_chr.
  destruct (rest st) as [|c s'] eqn:E; cbn [orelse drop_while].
  - exists st. now rewrite E.
  - destruct (p c) eqn:Hd; cbn [orelse].
    + cbn [rest String.length].
      rewrite (proj2 (Nat.ltb_lt _ _) (Nat.lt_succ_diag_r _)).
      destruct (IH (MState (Some c) s' (caps st))) as (st' & H1 & H2).
      { cbn in *. lia. }
      rewrite H1. exists st'. split; [reflexivity|exact H2].
    + exists st. now rewrite E.
Qed.

Lemma letter_E_alnum a : letter "E" a = true -> is_alnum a = true.
Proof.
  destruct a as [[] [] [] [] [] [] [] []]; vm_compute; intros H;
    (reflexivity || discriminate H).
Qed.

Lemma alnum_not_space a : is_alnum a = true -> Js.is_space a = false.
Proof.
  destruct a as [[] [] [] [] [] [] [] []]; vm_compute; intros H;
    (reflexivity || discriminate H).
Qed.

Lemma upper_char_alnum a : is_alnum (Js.upper_char a) = is_alnum a.
Proof. destruct a as [[] [] [] [] [] [] [] []]; reflexivity. Qed.

Ltac split_letters :=
  repeat match goal with
         | |- context [Ascii.eqb (Js.upper_char ?c) ?l] =>
             destruct (Ascii.eqb (Js.upper_char c) l) eqn:?
         end.

(** The first alternative of the order pattern reads an order token where
    one starts. *)
Lemma run_ord p s :
  option_map (fun st' => consumed s (rest st'))
             (run OrderService.re_ord (MState p s []) Some) =
  if starts_with_order_token s then Some (order_token_at s) else None.
Proof.
  unfold OrderService.re_ord. cbn [seqs lit]. unfold plus, ci.
  cbn [run rest prev caps].
  change (Js.upper_char "O") with "O"%char.
  change (Js.upper_char "R") with "R"%char.
  change (Js.upper_char "D") with "D"%char.
  unfold starts_with_order_token, order_token_at, letter.
  destruct s as [|o [|r [|d [|a s']]]]; split_letters;
    cbn [andb option_map rest prev caps]; try reflexivity.
  change alnum with (Chr is_alnum). rewrite run_chr. cbn [rest prev caps].
  destruct (is_alnum a) eqn:Ha; [|reflexivity].
  destruct (star_chr is_alnum (S (String.length s'))
                     (MState (Some a) s' [])) as (st' & H1 & H2).
  { cbn. lia. }
  rewrite H1. cbn [option_map]. f_equal. rewrite H2. cbn [rest].
  cbn [take_while]. rewrite Ha.
  rewrite (take_drop_while is_alnum s') at 1.
  change (String o (String r (String d (String a
            (take_while is_alnum s' ++ drop_while is_alnum s')))))
    with (String o (String r (String d (String a (take_while is_alnum s'))))
          ++ drop_while is_alnum s').
  apply consumed_append.
Qed.

Lemma starts_ORDER_token s :
  Js.startsWith "ORDER" (Js.toUpperCase s) = true ->
  starts_with_order_token s = true.
Proof.
  destruct s as [|o [|r [|d [|a s']]]];
    unfold Js.toUpperCase;
    cbn [Js.map_chars Js.startsWith starts_with_order_token];
    try discriminate;
    try (rewrite ?andb_false_r; discriminate).
  unfold letter.
  rewrite (Ascii.eqb_sym "O"), (Ascii.eqb_sym "R"), (Ascii.eqb_sym "D"),
    (Ascii.eqb_sym "E").
  intros H.
  apply andb_true_iff in H. destruct H as [-> H].
  apply andb_true_iff in H. destruct H as [-> H].
  apply andb_true_iff in H. destruct H as [-> H].
  apply andb_true_iff in H. destruct H as [H _].
  cbn. apply letter_E_alnum. exact H.
Qed.

(** The second alternative of the order pattern never decides a match: where
    the word ORDER can be read, the first alternative has read it. *)
Lemma run_order_id p s :
  option_map (fun st' => consumed s (rest st'))
             (run Parser.re_order_id (MState p s []) Some) =
  if starts_with_order_token s then Some (order_token_at s) else None.
Proof.
  pose proof (run_ord p s) as H.
  change Parser.re_order_id
    with (Alt OrderService.re_ord
              (Seq WordB (Seq (lit "ORDER")
                 (seqs [plus space; Group 1 (plus alnum)])))).
  cbn [run].
  destruct (run OrderService.re_ord (MState p s []) Some) as [st'|];
    [exact H|].
  cbn [orelse].
  destruct (starts_with_order_token s) eqn:Hs; [discriminate|].
  destruct (xorb _ _); [|reflexivity].
  match goal with
  | |- option_map _ ?x = None => destruct x as [a|] eqn:E; [|reflexivity]
  end.
  apply run_lit in E. cbn [rest] in E.
  change (Js.toUpperCase "ORDER") with "ORDER" in E.
  apply starts_ORDER_token in E. congruence.
Qed.

Lemma search_token r :
  (forall p s,
     option_map (fun st' => consumed s (rest st'))
                (run r (MState p s []) Some) =
     if starts_with_order_token s then Some (order_token_at s) else None) ->
  forall s p pre idx,
    option_map matched (search r p pre s idx) = first_order_token s.
Proof.
  intros Hrun. induction s as [|c s IH]; intros p pre idx;
    rewrite search_unfold; pose proof (Hrun p) as H.
  - specialize (H ""). cbn [starts_with_order_token] in H.
    destruct (run r _ Some); [discriminate|reflexivity].
  - specialize (H (String c s)). cbn [first_order_token].
    destruct (run r _ Some) as [st'|];
      destruct (starts_with_order_token (String c s));
      cbn [option_map matched] in *; first [apply IH | congruence].
Qed.

Lemma first_order_token_at s t :
  first_order_token s = Some t ->
  exists s', starts_with_order_token s' = true /\ t = order_token_at s'.
Proof.
  induction s as [|c s IH]; [discriminate|]. cbn [first_order_token].
  destruct (starts_with_order_token (String c s)) eqn:E; [|exact IH].
  intros [= <-]. now exists (String c s).
Qed.

Lemma all_chars_upper s :
  all_chars is_alnum (Js.toUpperCase s) = all_chars is_alnum s.
Proof.
  induction s as [|c s IH]; [reflexivity|]. cbn.
  now rewrite upper_char_alnum, IH.
Qed.

Lemma letter_upper l c : letter l c = true -> Js.upper_char c = l.
Proof. unfold letter. apply Ascii.eqb_eq. Qed.

(** An order token in upper case: it starts with ORD and consists of
    letters and digits. *)
Lemma order_token_upper s :
  starts_with_order_token s = true ->
  Js.startsWith "ORD" (Js.toUpperCase (order_token_at s)) = true /\
  all_chars is_alnum (Js.toUpperCase (order_token_at s)) = true.
Proof.
  destruct s as [|o [|r [|d [|a s']]]]; cbn [starts_with_order_token];
    try discriminate.
  intros H.
  apply andb_true_iff in H. destruct H as [H Ha].
  apply andb_true_iff in H. destruct H as [H Hd].
  apply andb_true_iff in H. destruct H as [Ho Hr].
  apply letter_upper in Ho, Hr, Hd.
  cbn [order_token_at].
  change (Js.toUpperCase (String o (String r (String d
            (take_while is_alnum (String a s'))))))
    with (String (Js.upper_char o) (String (Js.upper_char r)
            (String (Js.upper_char d)
               (Js.toUpperCase (take_while is_alnum (String a s')))))).
  rewrite Ho, Hr, Hd. split; [reflexivity|].
  cbn [all_chars]. rewrite all_chars_upper, all_chars_take_while.
  reflexivity.
Qed.

Lemma search_order_prefix_later : forall s c pre idx,
  search Parser.re_order_prefix (Some c) pre s idx = None.
Proof.
  induction s as [|d s IH]; intros c pre idx; rewrite search_unfold;
    unfold Parser.re_order_prefix; cbn [seqs run prev]; [reflexivity|].
  apply IH.
Qed.

Lemma all_chars_cons p c s :
  all_chars p (String c s) = true -> p c = true /\ all_chars p s = true.
Proof. cbn. apply andb_true_iff. Qed.

(** In a text of letters and digits the words "ORDER" and white space are
    never found at the start. *)
Lemma run_order_prefix_alnum p t :
  all_chars is_alnum t = true ->
  run Parser.re_order_prefix (MState p t []) Some = None.
Proof.
  unfold Parser.re_order_prefix. cbn [seqs lit]. unfold plus, ci, space.
  cbn [run rest prev caps]. destruct p; [reflexivity|].
  destruct t as [|c1 [|c2 [|c3 [|c4 [|c5 [|c6 t]]]]]]; intros H;
    split_letters; cbn [rest prev caps]; try reflexivity.
  do 5 (apply all_chars_cons in H; destruct H as [_ H]).
  apply all_chars_cons in H. destruct H as [H _].
  now rewrite (alnum_not_space c6 H).
Qed.

Lemma replace_order_prefix_alnum t :
  all_chars is_alnum t = true ->
  replace_empty Parser.re_order_prefix t = t.
Proof.
  intros H. unfold replace_empty, js_match. rewrite search_unfold.
  rewrite (run_order_prefix_alnum None t H).
  destruct t; [reflexivity|]. now rewrite search_order_prefix_later.
Qed.

Lemma order_id_of_token m s :
  starts_with_order_token s = true ->
  matched m = order_token_at s ->
  Parser.order_id_of m = Js.toUpperCase (order_token_at s).
Proof.
  intros Hs Hm. unfold Parser.order_id_of. rewrite Hm.
  destruct (order_token_upper s Hs) as [Hord Hall].
  rewrite (replace_order_prefix_alnum _ Hall). now rewrite Hord.
Qed.

Lemma order_keys msg :
  order_key Parser.parseOrderUpdate msg
    = option_map Js.toUpperCase (first_order_token msg) /\
  order_key OrderService.parseOrderMessage msg
    = option_map Js.toUpperCase (first_order_token msg).
Proof.
  unfold order_key, Parser.parseOrderUpdate, OrderService.parseOrderMessage.
  destruct msg as [|c msg]; [split; reflexivity|]. cbn [Js.truthy negb].
  pose proof (search_token Parser.re_order_id run_order_id
                (String c msg) None "" 0%nat) as H1.
  pose proof (search_token OrderService.re_ord run_ord
                (String c msg) None "" 0%nat) as H2.
  fold (js_match Parser.re_order_id (String c msg)) in H1.
  fold (js_match OrderService.re_ord (String c msg)) in H2.
  split.
  - destruct (js_match Parser.re_order_id (String c msg)) as [m|];
      rewrite <- H1; [|reflexivity].
    cbn [option_map Parser.po_order_id]. f_equal.
    symmetry in H1. cbn [option_map] in H1.
    destruct (first_order_token_at _ _ H1) as (s' & Hs' & Ht).
    rewrite Ht. now apply order_id_of_token.
  - destruct (js_match OrderService.re_ord (String c msg)) as [m|];
      rewrite <- H2; reflexivity.
Qed.

(** X16: the order code both order parsers return is the first order token
    of the text, the letters ORD with the letters and digits that follow
    them, in upper case, and they succeed exactly when the text has one; the
    "ORDER code" alternative of the webhook parser never contributes. *)
Theorem order_key_is_first_token msg :
  order_key Parser.parseOrderUpdate msg
    = option_map Js.toUpperCase (first_order_token msg) /\
  order_key OrderService.parseOrderMessage msg
    = option_map Js.toUpperCase (first_order_token msg).
Proof. apply order_keys. Qed.

(** *** Classification and extraction together *)

Lemma trimEnd_prefix s : exists x, s = Js.trimEnd s ++ x.
Proof.
  induction s as [|c s [x IH]]; [now exists ""|]. cbn [Js.trimEnd].
  destruct (Js.trimEnd s) as [|d t] eqn:E.
  - destruct (Js.is_space c).
    + now exists (String c s).
    + exists s. reflexivity.
  - exists x. rewrite append_cons. now rewrite <- IH.
Qed.

Lemma starts_machine_prefix a x :
  starts_with_machine_code a = true ->
  starts_with_machine_code (a ++ x) = true.
Proof. destruct a as [|c [|d a]]; try discriminate. now rewrite !append_cons. Qed.

Lemma first_machine_token_trimStart s :
  starts_with_machine_code (Js.trimStart s) = true ->
  is_Some (first_machine_token s).
Proof.
  induction s as [|c s IH]; [discriminate|].
  cbn [Js.trimStart first_machine_token].
  destruct (Js.is_space c).
  - intros H. destruct (starts_with_machine_code (String c s)); eauto.
  - intros ->. eauto.
Qed.

Lemma intent_machine msg :
  Parser.detectIntent (JString msg) = MACHINE_UPDATE ->
  starts_with_machine_code (Js.trim msg) = true.
Proof.
  unfold Parser.detectIntent. destruct (negb (Js.truthy msg)); [discriminate|].
  rewrite test_machine_start.
  destruct (starts_with_machine_code (Js.trim msg)); [reflexivity|].
  destruct (Js.includes _ "SAFETY"); [discriminate|].
  destruct (_ || _); discriminate.
Qed.

Lemma truthy_toUpperCase s : Js.truthy (Js.toUpperCase s) = Js.truthy s.
Proof. destruct s; reflexivity. Qed.

Lemma first_machine_token_truthy s t :
  first_machine_token s = Some t -> Js.truthy t = true.
Proof.
  induction s as [|c s IH]; [discriminate|]. cbn [first_machine_token].
  destruct (starts_with_machine_code (String c s)); [|exact IH].
  now intros [= <-].
Qed.

(** X17: a message classified as a machine update always yields a machine
    record: the machine extractor succeeds on it with a non-empty
    machine_id, so the webhook hands the extracted object to
    [updateMachine] and returns what that returns. *)
Theorem machine_intent_reaches_the_service msg :
  Parser.detectIntent (JString msg) = MACHINE_UPDATE ->
  exists p,
    Parser.parseMachineUpdate (JString msg) = Some p /\
    Js.truthy (Parser.pm_machine_id p) = true /\
    forall now w,
      Webhook.processIncomingMessage now msg w =
      '(m, t) ← Machines.updateMachine now (Parser.pm_machine_id p)
                  (Webhook.machine_data p) (Webhook.machines w);
      Ok (Webhook.UpdatedMachine m,
          {| Webhook.machines := t;
             Webhook.areas := Webhook.areas w;
             Webhook.orders := Webhook.orders w |}).
Proof.
  intros Hi. pose proof (intent_machine msg Hi) as Hs.
  assert (Htok : is_Some (first_machine_token msg)).
  { apply first_machine_token_trimStart. unfold Js.trim in Hs.
    destruct (trimEnd_prefix (Js.trimStart msg)) as [x Hx].
    rewrite Hx. now apply starts_machine_prefix. }
  destruct Htok as [tok Htok].
  pose proof (machine_key_parseMachineUpdate msg) as Hk.
  unfold machine_key in Hk. rewrite Htok in Hk. cbn [option_map] in Hk.
  destruct (Parser.parseMachineUpdate (JString msg)) as [p|] eqn:Hp;
    [|discriminate].
  cbn [option_map] in Hk. injection Hk as Hk.
  exists p. split; [reflexivity|].
  assert (Ht : Js.truthy (Parser.pm_machine_id p) = true).
  { rewrite Hk, truthy_toUpperCase.
    exact (first_machine_token_truthy _ _ Htok). }
  split; [exact Ht|].
  intros now w. unfold Webhook.processIncomingMessage.
  destruct (Js.trim msg) as [|c t]; [discriminate|].
  cbn [Js.truthy negb]. rewrite Hi, Hp, Ht. reflexivity.
Qed.

Lemma machine_intent_reaches_the_service_witness :
  Parser.detectIntent (JString "m07 status idle") = MACHINE_UPDATE /\
  exists p,
    Parser.parseMachineUpdate (JString "m07 status idle") = Some p /\
    Js.truthy (Parser.pm_machine_id p) = true.
Proof.
  split; [reflexivity|].
  destruct (machine_intent_reaches_the_service "m07 status idle" eq_refl)
    as (p & H1 & H2 & _).
  exists p. split; assumption.
Defined.

Lemma letter_not_space l c :
  Js.is_space l = false -> letter l c = true -> Js.is_space c = false.
Proof.
  unfold letter. intros Hl H. apply Ascii.eqb_eq in H. subst l.
  revert Hl. destruct c as [[] [] [] [] [] [] [] []]; vm_compute; congruence.
Qed.

Lemma all_space_no_token s :
  all_chars Js.is_space s = true -> first_order_token s = None.
Proof.
  induction s as [|c s IH]; [reflexivity|]. intros H.
  apply all_chars_cons in H. destruct H as [Hc Hs].
  cbn [first_order_token].
  destruct (starts_with_order_token (String c s)) eqn:E; [|exact (IH Hs)].
  destruct s as [|r [|d [|a s']]]; try discriminate.
  cbn [starts_with_order_token] in E.
  apply andb_true_iff in E. destruct E as [E _].
  apply andb_true_iff in E. destruct E as [E _].
  apply andb_true_iff in E. destruct E as [E _].
  apply (letter_not_space "O") in E; [congruence|reflexivity].
Qed.

Lemma trimEnd_empty s : Js.trimEnd s = "" -> all_chars Js.is_space s = true.
Proof.
  induction s as [|c s IH]; [reflexivity|]. cbn [Js.trimEnd all_chars].
  destruct (Js.trimEnd s); [|discriminate].
  destruct (Js.is_space c); [|discriminate]. intros _. now rewrite IH.
Qed.

Lemma trimStart_all_space s :
  all_chars Js.is_space (Js.trimStart s) = true ->
  all_chars Js.is_space s = true.
Proof.
  induction s as [|c s IH]; [reflexivity|]. cbn [Js.trimStart].
  destruct (Js.is_space c) eqn:E; [|trivial].
  intros H. cbn [all_chars]. now rewrite E, IH.
Qed.

Lemma order_code_token s :
  contains_order_code s = true -> is_Some (first_order_token s).
Proof.
  induction s as [|c s IH]; [discriminate|].
  cbn [contains_order_code first_order_token]. intros H.
  destruct (starts_with_order_token (String c s)) eqn:E; [eauto|].
  apply orb_true_iff in H. destruct H as [H|H]; [|exact (IH H)].
  exfalso. destruct s as [|r [|d [|a s']]]; try discriminate.
  cbn [starts_with_order_code starts_with_order_token] in H, E.
  apply andb_true_iff in H. destruct H as [H Ha]. rewrite H in E.
  unfold is_alnum in E. rewrite Ha in E. cbn in E.
  now rewrite orb_true_r in E.
Qed.

Lemma order_word_token s :
  Js.includes (Js.toUpperCase s) "ORDER" = true ->
  is_Some (first_order_token s).
Proof.
  induction s as [|c s IH]; [discriminate|].
  change (Js.toUpperCase (String c s))
    with (String (Js.upper_char c) (Js.toUpperCase s)).
  cbn [Js.includes first_order_token].
  change (String (Js.upper_char c) (Js.toUpperCase s))
    with (Js.toUpperCase (String c s)).
  intros H.
  destruct (starts_with_order_token (String c s)) eqn:E; [eauto|].
  apply orb_true_iff in H. destruct H as [H|H]; [|exact (IH H)].
  apply starts_ORDER_token in H. congruence.
Qed.

(** X18: a message classified as an order update always yields an order
    record: the order extractor succeeds on it with a non-empty order_id,
    so the webhook hands the extracted object to [updateOrder] and returns
    what that returns. *)
Theorem order_intent_reaches_the_service msg :
  Parser.detectIntent (JString msg) = ORDER_UPDATE ->
  exists p,
    Parser.parseOrderUpdate (JString msg) = Some p /\
    Js.truthy (Parser.po_order_id p) = true /\
    forall now w,
      Webhook.processIncomingMessage now msg w =
      '(o, t) ← Orders.updateOrder now (Parser.po_order_id p)
                  (Orders.of_parsed p) (Webhook.orders w);
      Ok (Webhook.UpdatedOrder o,
          {| Webhook.machines := Webhook.machines w;
             Webhook.areas := Webhook.areas w;
             Webhook.orders := t |}).
Proof.
  intros Hi.
  assert (Htok : is_Some (first_order_token msg)).
  { unfold Parser.detectIntent in Hi.
    destruct (negb (Js.truthy msg)); [discriminate|].
    destruct (test Parser.re_machine_start _); [discriminate|].
    destruct (Js.includes _ "SAFETY"); [discriminate|].
    rewrite test_ord_digits in Hi.
    destruct (Js.includes (Js.toUpperCase msg) "ORDER") eqn:E1;
      [now apply order_word_token|].
    destruct (contains_order_code msg) eqn:E2; [|discriminate].
    now apply order_code_token. }
  destruct Htok as [tok Htok].
  destruct (order_keys msg) as [Hk _].
  unfold order_key in Hk. rewrite Htok in Hk. cbn [option_map] in Hk.
  destruct (Parser.parseOrderUpdate (JString msg)) as [p|] eqn:Hp;
    [|discriminate].
  cbn [option_map] in Hk. injection Hk as Hk.
  exists p. split; [reflexivity|].
  assert (Ht : Js.truthy (Parser.po_order_id p) = true).
  { rewrite Hk, truthy_toUpperCase.
    destruct (first_order_token_at _ _ Htok) as (s' & Hs' & ->).
    destruct s' as [|o [|r [|d s']]]; try discriminate. reflexivity. }
  split; [exact Ht|].
  intros now w. unfold Webhook.processIncomingMessage.
  destruct (Js.trim msg) as [|c t] eqn:Htrim.
  - exfalso. unfold Js.trim in Htrim.
    apply trimEnd_empty, trimStart_all_space, all_space_no_token in Htrim.
    congruence.
  - cbn [Js.truthy negb]. rewrite Hi, Hp, Ht. reflexivity.
Qed.

Lemma order_intent_reaches_the_service_witness :
  Parser.detectIntent (JString "the order ord77a is late") = ORDER_UPDATE /\
  exists p,
    Parser.parseOrderUpdate (JString "the order ord77a is late") = Some p /\
    Js.truthy (Parser.po_order_id p) = true.
Proof.
  split; [reflexivity|].
  destruct (order_intent_reaches_the_service
              "the order ord77a is late" eq_refl) as (p & H1 & H2 & _).
  exists p. split; assumption.
Defined.

(** *** Enumerated fields of the extractors *)

Lemma run_lit_exact {A} : forall w st (k : mstate -> option A) a,
  run (lit w) st k = Some a ->
  exists x s' p',
    rest st = x ++ s' /\
    Js.toUpperCase x = Js.toUpperCase w /\
    k (MState p' s' (caps st)) = Some a.
Proof.
  induction w as [|c w IH]; intros st k a.
  - cbn [lit run]. intros H. exists "", (rest st), (prev st).
    destruct st; auto.
  - destruct w as [|c' w'].
    + cbn [lit]. unfold ci. cbn [run].
      destruct (rest st) as [|x0 s0]; [discriminate|].
      destruct (Ascii.eqb (Js.upper_char x0) (Js.upper_char c)) eqn:E;
        [|discriminate].
      intros H. exists (String x0 ""), s0, (Some x0).
      apply Ascii.eqb_eq in E. repeat split; [|exact H].
      cbn. now rewrite E.
    + change (lit (String c (String c' w')))
        with (Seq (ci c) (lit (String c' w'))).
      unfold ci. cbn [run].
      destruct (rest st) as [|x0 s0]; [discriminate|].
      destruct (Ascii.eqb (Js.upper_char x0) (Js.upper_char c)) eqn:E;
        [|discriminate].
      intros H. apply IH in H. cbn [rest caps] in H.
      destruct H as (x & s' & p' & Hx & Hup & Hk).
      exists (String x0 x), s', p'. apply Ascii.eqb_eq in E.
      repeat split; [now rewrite Hx| |exact Hk].
      change (Js.toUpperCase (String x0 x))
        with (String (Js.upper_char x0) (Js.toUpperCase x)).
      now rewrite E, Hup.
Qed.

Lemma run_alts_lits {A} : forall ws st (k : mstate -> option A) a,
  ws <> [] ->
  run (alts (map lit ws)) st k = Some a ->
  exists w x s' p',
    In w ws /\ rest st = x ++ s' /\
    Js.toUpperCase x = Js.toUpperCase w /\
    k (MState p' s' (caps st)) = Some a.
Proof.
  induction ws as [|w ws IH]; intros st k a Hne; [congruence|].
  destruct ws as [|w2 ws].
  - cbn [map alts]. intros H. apply run_lit_exact in H.
    destruct H as (x & s' & p' & H). exists w, x, s', p'.
    split; [now left|exact H].
  - change (alts (map lit (w :: w2 :: ws)))
      with (Alt (lit w) (alts (map lit (w2 :: ws)))).
    cbn [run]. intros H. apply orelse_some in H. destruct H as [H|H].
    + apply run_lit_exact in H.
      destruct H as (x & s' & p' & H). exists w, x, s', p'.
      split; [now left|exact H].
    + apply IH in H; [|discriminate].
      destruct H as (w0 & x & s' & p' & Hin & H). exists w0, x, s', p'.
      split; [now right|exact H].
Qed.

Lemma search_groups r : forall s p pre idx m,
  search r p pre s idx = Some m ->
  exists p' s' a, run r (MState p' s' []) Some = Some a /\ groups m = caps a.
Proof.
  induction s as [|c s IH]; intros p pre idx m; rewrite search_unfold.
  - destruct (run r _ Some) as [a|] eqn:E; [|discriminate].
    intros [= <-]. now exists p, "", a.
  - destruct (run r _ Some) as [a|] eqn:E.
    + intros [= <-]. now exists p, (String c s), a.
    + apply IH.
Qed.

(** A field pattern "LABEL[=:]?\s*(A|B|...)" captures one of its
    alternatives, case apart. *)
Lemma enum_field label ws msg m :
  ws <> [] ->
  js_match (seqs [lit label; sep; Star true space;
                  Group 1 (alts (map lit ws))]) msg = Some m ->
  exists w x,
    In w ws /\ Js.toUpperCase x = Js.toUpperCase w /\ group 1 m = Some x.
Proof.
  intros Hne H. apply search_groups in H.
  destruct H as (p' & s' & a & Hrun & Hg).
  cbn [seqs] in Hrun. cbn [run] in Hrun.
  apply run_reaches in Hrun. destruct Hrun as (st1 & Hrun & _).
  apply run_reaches in Hrun. destruct Hrun as (st2 & Hrun & _).
  change (star_loop _ true _ _ st2 = Some a)
    with (run (Star true space) st2
              (fun st => run (Group 1 (alts (map lit ws))) st Some) = Some a)
    in Hrun.
  apply run_reaches in Hrun. destruct Hrun as (st3 & Hrun & _).
  cbn [run] in Hrun. apply run_alts_lits in Hrun; [|exact Hne].
  destruct Hrun as (w & x & s3 & p3 & Hin & Hrest & Hup & [= <-]).
  exists w, x. split; [exact Hin|]. split; [exact Hup|].
  unfold group. rewrite Hg. cbn [caps lookup_group Nat.eqb].
  rewrite Hrest. now rewrite consumed_append.
Qed.

Lemma lower_upper_char c : Js.lower_char (Js.upper_char c) = Js.lower_char c.
Proof. destruct c as [[] [] [] [] [] [] [] []]; reflexivity. Qed.

Lemma toLowerCase_toUpperCase s :
  Js.toLowerCase (Js.toUpperCase s) = Js.toLowerCase s.
Proof.
  induction s as [|c s IH]; [reflexivity|]. cbn.
  rewrite lower_upper_char. f_equal. exact IH.
Qed.

Lemma titleCase_upper_eq x w :
  Js.toUpperCase x = Js.toUpperCase w -> titleCase x = titleCase w.
Proof.
  intros H. apply titleCase_case_insensitive.
  now rewrite <- (toLowerCase_toUpperCase x), H, toLowerCase_toUpperCase.
Qed.

(** The title-cased capture of an enumerated field is the title-cased form
    of one of the alternatives. *)
Lemma enum_field_title label ws msg m :
  ws <> [] ->
  js_match (seqs [lit label; sep; Star true space;
                  Group 1 (alts (map lit ws))]) msg = Some m ->
  exists w, In w ws /\ option_map titleCase (group 1 m) = Some (titleCase w).
Proof.
  intros Hne H. destruct (enum_field _ _ _ _ Hne H) as (w & x & Hin & Hup & Hg).
  exists w. split; [exact Hin|]. rewrite Hg. cbn.
  now rewrite (titleCase_upper_eq x w Hup).
Qed.

Lemma order_status_extracted msg :
  exists s,
    match js_match Parser.re_order_status msg with
    | Some m => option_map titleCase (group 1 m)
    | None => Some "Active"
    end = Some s /\ In s extracted_order_statuses.
Proof.
  destruct (js_match Parser.re_order_status msg) as [m|] eqn:E.
  - destruct (enum_field_title "STATUS"
                ["Active"; "OnHold"; "Completed"; "Cancelled"] msg m
                ltac:(discriminate) E) as (w & Hin & ->).
    exists (titleCase w). split; [reflexivity|].
    cbn [In] in Hin.
    repeat (destruct Hin as [<-|Hin]; [vm_compute; tauto|]). destruct Hin.
  - exists "Active". split; [reflexivity|]. now left.
Qed.

Lemma order_priority_extracted msg :
  match Parser.capture_map titleCase 1 (js_match Parser.re_priority msg) with
  | Some pr => In pr Orders.VALID_PRIORITIES
  | None => True
  end.
Proof.
  destruct (js_match Parser.re_priority msg) as [m|] eqn:E; [|exact I].
  destruct (enum_field_title "PRIORITY" ["Low"; "Medium"; "High"; "Urgent"]
              msg m ltac:(discriminate) E) as (w & Hin & Hg).
  cbn [Parser.capture_map]. unfold option_map in Hg |- *.
  destruct (group 1 m); [|exact I]. injection Hg as ->.
  cbn [In] in Hin.
  repeat (destruct Hin as [<-|Hin]; [vm_compute; tauto|]). destruct Hin.
Qed.

(** X19: the order extractor always sets a status, one of Active, Onhold,
    Completed and Cancelled, and a priority, when it sets one, that is a
    valid priority; so an order update that comes through the extractor
    and succeeds leaves the order Active, Completed or Cancelled, never
    OnHold. *)
Theorem extracted_order_is_never_put_on_hold msg p :
  Parser.parseOrderUpdate (JString msg) = Some p ->
  (exists s, Parser.po_status p = Some s /\ In s extracted_order_statuses) /\
  match Parser.po_priority p with
  | Some pr => In pr Orders.VALID_PRIORITIES
  | None => True
  end /\
  forall now table o' table',
    Orders.updateOrder now (Parser.po_order_id p) (Orders.of_parsed p) table
      = Ok (o', table') ->
    In (Orders.status o') ["Active"; "Completed"; "Cancelled"].
Proof.
  intros Hp. unfold Parser.parseOrderUpdate in Hp.
  destruct msg as [|c msg]; [discriminate|]. cbn [Js.truthy negb] in Hp.
  destruct (js_match Parser.re_order_id (String c msg)); [|discriminate].
  injection Hp as <-. cbn [Parser.po_status Parser.po_priority].
  destruct (order_status_extracted (String c msg)) as (s & Hs & Hin).
  unfold Orders.of_parsed.
  cbn [Parser.po_status Parser.po_priority Parser.po_order_id
       Parser.po_stage Parser.po_quantity Parser.po_materials Parser.po_eta
       Parser.po_assigned_to].
  rewrite Hs. cbn [of_option].
  split; [now exists s|].
  split; [apply order_priority_extracted|].
  intros now table o' table' Hok.
  assert (Hstat : Orders.status o' = s).
  { apply updateOrder_ok in Hok.
    assert (Hne : Js.truthy s = true).
    { cbn [In extracted_order_statuses] in Hin.
      repeat (destruct Hin as [<-|Hin]; [reflexivity|]). destruct Hin. }
    destruct (table !! _); subst o';
      cbn [Orders.patch Orders.create Orders.status Orders.d_status
           Prisma.set_required field_or];
      [reflexivity|now rewrite Hne]. }
  rewrite Hstat. unfold Orders.updateOrder in Hok. apply rethrow_ok in Hok.
  destruct (Orders.validate InvalidStage _ _); [|discriminate].
  unfold mbind, result_bind in Hok.
  cbn [Orders.d_status] in Hok.
  cbn [In extracted_order_statuses] in Hin.
  destruct Hin as [<-|[<-|[<-|[<-|[]]]]]; cbn [In]; auto.
  discriminate Hok.
Qed.

Lemma extracted_order_is_never_put_on_hold_witness :
  Parser.parseOrderUpdate (JString shipping_text) = Some shipping_parsed /\
  Orders.updateOrder 2000 "ORD1024" (Orders.of_parsed shipping_parsed)
                     order_book
    = Ok (held_order_shipped, <["ORD1024" := held_order_shipped]> order_book) /\
  In (Orders.status held_order_shipped) ["Active"; "Completed"; "Cancelled"].
Proof.
  split; [reflexivity|]. split; [reflexivity|].
  destruct (extracted_order_is_never_put_on_hold
              shipping_text shipping_parsed eq_refl) as (_ & _ & H).
  apply (H 2000%Z order_book held_order_shipped
           (<["ORD1024" := held_order_shipped]> order_book)).
  reflexivity.
Defined.

(** *** The safety extractor and its service *)

Lemma safety_field_extracted label ws default msg :
  ws <> [] ->
  (forall w, In w ws -> titleCase w = w) ->
  In default ws ->
  exists s,
    SafetyParser.matched_or_default
      (seqs [lit label; sep; Star true space; Group 1 (alts (map lit ws))])
      msg default = Some s /\ In s ws.
Proof.
  intros Hne Htitle Hdef. unfold SafetyParser.matched_or_default.
  destruct (js_match _ msg) as [m|] eqn:E.
  - destruct (enum_field_title _ _ _ _ Hne E) as (w & Hin & ->).
    exists w. split; [now rewrite (Htitle w Hin)|exact Hin].
  - now exists default.
Qed.

Lemma valid_member valid s :
  In s valid -> Machines.list_includes valid s = true.
Proof.
  unfold Machines.list_includes. intros H. apply existsb_exists.
  exists s. split; [exact H|apply String.eqb_refl].
Qed.

Lemma validate_member mk valid s :
  In s valid -> Orders.validate mk valid (Value s) = Ok tt.
Proof.
  intros H. unfold Orders.validate. cbn [field_nullish truthy_field].
  rewrite (valid_member valid s H). cbn [negb].
  now rewrite andb_false_r.
Qed.

Lemma parsed_safety_accepted msg p :
  SafetyParser.parseSafetyUpdate (JString msg) = Some p ->
  SafetyParser.ps_area_name p = SafetyParser.ps_zone p ++ "_Area" /\
  exists r s,
    SafetyParser.ps_risk_level p = Some r /\
    In r Safety.VALID_RISK_LEVELS /\
    SafetyParser.ps_status p = Some s /\
    In s Safety.VALID_STATUSES /\
    forall now table,
      exists a table',
        Safety.updateSafetyArea now (SafetyParser.ps_area_name p)
                                (Safety.of_parsed p) table = Ok (a, table') /\
        Safety.area_name a = SafetyParser.ps_area_name p /\
        Safety.risk_level a = r /\
        Safety.status a = s.
Proof.
  intros Hp. unfold SafetyParser.parseSafetyUpdate in Hp.
  destruct msg as [|c msg]; [discriminate|]. cbn [Js.truthy negb] in Hp.
  destruct (js_match SafetyParser.re_zone (String c msg)); [|discriminate].
  destruct (group 1 _) as [zone|]; [|discriminate].
  injection Hp as <-.
  cbn [SafetyParser.ps_area_name SafetyParser.ps_zone
       SafetyParser.ps_risk_level SafetyParser.ps_status].
  split; [reflexivity|].
  destruct (safety_field_extracted "RISK" Safety.VALID_RISK_LEVELS "Medium"
              (String c msg)) as (r & Hr & Hrin);
    [discriminate| |cbn; tauto|].
  { intros w Hw. cbn [In Safety.VALID_RISK_LEVELS] in Hw.
    repeat (destruct Hw as [<-|Hw]; [reflexivity|]). destruct Hw. }
  destruct (safety_field_extracted "STATUS" Safety.VALID_STATUSES "Safe"
              (String c msg)) as (s & Hs & Hsin);
    [discriminate| |cbn; tauto|].
  { intros w Hw. cbn [In Safety.VALID_STATUSES] in Hw.
    repeat (destruct Hw as [<-|Hw]; [reflexivity|]). destruct Hw. }
  change (seqs [lit "RISK"; sep; Star true space;
                Group 1 (alts (map lit Safety.VALID_RISK_LEVELS))])
    with SafetyParser.re_risk in Hr.
  change (seqs [lit "STATUS"; sep; Star true space;
                Group 1 (alts (map lit Safety.VALID_STATUSES))])
    with SafetyParser.re_safety_status in Hs.
  exists r, s. split; [exact Hr|]. split; [exact Hrin|].
  split; [exact Hs|]. split; [exact Hsin|].
  intros now table. unfold Safety.updateSafetyArea, Safety.of_parsed.
  cbn [Safety.d_status Safety.d_risk_level SafetyParser.ps_status
       SafetyParser.ps_risk_level SafetyParser.ps_area_name
       SafetyParser.ps_zone SafetyParser.ps_ppe_required
       SafetyParser.ps_notes].
  rewrite Hr, Hs. cbn [of_option].
  rewrite (validate_member InvalidStatus _ s Hsin).
  rewrite (validate_member Safety.InvalidRiskLevel _ r Hrin).
  unfold mbind, result_bind, rethrow, Prisma.upsert.
  assert (Hchk : forall pp nn,
    Safety.check
      {| Safety.d_area_name := Value (zone ++ "_Area");
         Safety.d_zone := Value zone;
         Safety.d_ppe_required := of_option pp;
         Safety.d_risk_level := Value r;
         Safety.d_status := Value s;
         Safety.d_notes := of_option nn |} = Ok tt).
  { intros [?|] [?|]; reflexivity. }
  rewrite Hchk.
  assert (Hr' : Js.truthy r = true).
  { cbn [In Safety.VALID_RISK_LEVELS] in Hrin.
    repeat (destruct Hrin as [<-|Hrin]; [reflexivity|]). destruct Hrin. }
  assert (Hs' : Js.truthy s = true).
  { cbn [In Safety.VALID_STATUSES] in Hsin.
    repeat (destruct Hsin as [<-|Hsin]; [reflexivity|]). destruct Hsin. }
  destruct (table !! (zone ++ "_Area")) as [old|].
  - cbn [Safety.patch Safety.area_name Safety.d_area_name
         Prisma.set_required].
    rewrite String.eqb_refl. eexists _, _. split; [reflexivity|].
    cbn. auto.
  - eexists _, _. split; [reflexivity|]. cbn. rewrite Hr', Hs'. auto.
Qed.

(** X20: a safety update that the extractor produces is always accepted:
    its area name is the zone followed by "_Area", its risk level and its
    status are valid names (the defaults Medium and Safe when the message
    gives none), and [updateSafetyArea] succeeds on it for every table and
    returns a record with that area name, risk level and status. *)
Theorem extracted_safety_update_is_accepted msg p :
  SafetyParser.parseSafetyUpdate (JString msg) = Some p ->
  SafetyParser.ps_area_name p = SafetyParser.ps_zone p ++ "_Area" /\
  exists r s,
    SafetyParser.ps_risk_level p = Some r /\
    In r Safety.VALID_RISK_LEVELS /\
    SafetyParser.ps_status p = Some s /\
    In s Safety.VALID_STATUSES /\
    forall now table,
      exists a table',
        Safety.updateSafetyArea now (SafetyParser.ps_area_name p)
                                (Safety.of_parsed p) table = Ok (a, table') /\
        Safety.area_name a = SafetyParser.ps_area_name p /\
        Safety.risk_level a = r /\
        Safety.status a = s.
Proof. apply parsed_safety_accepted. Qed.

Lemma extracted_safety_update_is_accepted_witness :
  SafetyParser.parseSafetyUpdate (JString welding_text) = Some welding_parsed /\
  exists a table',
    Safety.updateSafetyArea 2000 "WeldingZone_Area"
                            (Safety.of_parsed welding_parsed) ∅
      = Ok (a, table') /\
    Safety.risk_level a = "High" /\ Safety.status a = "Warning".
Proof.
  split; [reflexivity|].
  destruct (extracted_safety_update_is_accepted
              welding_text welding_parsed eq_refl)
    as (_ & r & s & Hr & _ & Hs & _ & H).
  destruct (H 2000%Z ∅) as (a & table' & Hok & _ & Har & Has).
  exists a, table'. split; [exact Hok|].
  injection Hr as <-. injection Hs as <-. split; assumption.
Defined.

(** X21: a message classified as a safety update never makes the webhook
    throw, whatever the tables hold: either the extractor finds no zone and
    nothing is done, or the extracted update is accepted by
    [updateSafetyArea]; and no table but the safety areas is touched. *)
Theorem safety_message_never_throws now msg w :
  Parser.detectIntent (JString msg) = SAFETY_UPDATE ->
  exists u w',
    Webhook.processIncomingMessage now msg w = Ok (u, w') /\
    Webhook.machines w' = Webhook.machines w /\
    Webhook.orders w' = Webhook.orders w.
Proof.
  intros Hi. unfold Webhook.processIncomingMessage.
  destruct (negb (Js.truthy (Js.trim msg))); [now exists Webhook.Nothing, w|].
  rewrite Hi.
  destruct (SafetyParser.parseSafetyUpdate (JString msg)) as [p|] eqn:Hp;
    [|now exists Webhook.Nothing, w].
  destruct (Js.truthy (SafetyParser.ps_area_name p));
    [|now exists Webhook.Nothing, w].
  destruct (parsed_safety_accepted msg p Hp) as (_ & r & s & _ & _ & _ & _ & H).
  destruct (H now (Webhook.areas w)) as (a & t & Hok & _).
  rewrite Hok. cbn. eexists _, _. split; [reflexivity|]. split; reflexivity.
Qed.

Lemma safety_message_never_throws_witness :
  Parser.detectIntent (JString welding_text) = SAFETY_UPDATE /\
  exists u w',
    Webhook.processIncomingMessage 2000 welding_text empty_world
      = Ok (u, w') /\
    Webhook.machines w' = Webhook.machines empty_world.
Proof.
  split; [reflexivity|].
  destruct (safety_message_never_throws 2000 welding_text empty_world eq_refl)
    as (u & w' & H1 & H2 & _).
  exists u, w'. split; assumption.
Defined.

(** *** Statuses that come through the webhook *)

(** A group around "one or more of a class" captures at least one
    character. *)
Lemma group_plus_nonempty i p st a :
  run (Group i (plus (Chr p))) st Some = Some a ->
  exists c x, lookup_group i (caps a) = Some (String c x).
Proof.
  change (run (Group i (plus (Chr p))) st Some)
    with (run (Chr p) st (fun st1 =>
            run (Star true (Chr p)) st1 (fun st' =>
              Some (MState (prev st') (rest st')
                      ((i, consumed (rest st) (rest st')) :: caps st'))))).
  rewrite run_chr.
  destruct (rest st) as [|c s0] eqn:E; [discriminate|].
  destruct (p c); [|discriminate]. intros H.
  apply run_reaches in H.
  destruct H as (st' & [= <-] & x & Hx). cbn [rest] in Hx.
  exists c, x. cbn [caps lookup_group]. rewrite Nat.eqb_refl. f_equal.
  rewrite Hx. change (String c (x ++ rest st')) with (String c x ++ rest st').
  apply consumed_append.
Qed.

Lemma status_word_nonempty msg m :
  js_match Parser.re_status_word msg = Some m ->
  exists c x, group 1 m = Some (String c x).
Proof.
  intros H. apply search_groups in H.
  destruct H as (p' & s' & a & Hrun & Hg).
  unfold Parser.re_status_word in Hrun. cbn [seqs] in Hrun.
  cbn [run] in Hrun.
  apply run_reaches in Hrun. destruct Hrun as (st1 & Hrun & _).
  apply run_reaches in Hrun. destruct Hrun as (st2 & Hrun & _).
  change (star_loop _ true _ _ st2 = Some a)
    with (run (Star true space) st2
              (fun st => run (Group 1 (plus word)) st Some) = Some a)
    in Hrun.
  apply run_reaches in Hrun. destruct Hrun as (st3 & Hrun & _).
  apply group_plus_nonempty in Hrun. unfold group. now rewrite Hg.
Qed.

Lemma normalizeMachineStatus_nonempty c x :
  Parser.normalizeMachineStatus (String c x) <> "".
Proof.
  unfold Parser.normalizeMachineStatus. rewrite titleCase_cons.
  repeat match goal with |- context [if ?b then _ else _] => destruct b end;
    discriminate.
Qed.

(** The status of an extracted machine update is never the empty string. *)
Lemma parsed_machine_status msg p :
  Parser.parseMachineUpdate (JString msg) = Some p ->
  Machines.d_status (Webhook.machine_data p) <> Value "".
Proof.
  unfold Parser.parseMachineUpdate.
  destruct (negb (Js.truthy msg)); [discriminate|].
  destruct (js_match Parser.re_machine_id msg) as [idm|]; [|discriminate].
  intros [= <-]. cbn [Webhook.machine_data Machines.d_status Parser.pm_status].
  destruct (js_match Parser.re_status_word msg) as [m|] eqn:E;
    [|discriminate].
  destruct (status_word_nonempty msg m E) as (c & x & Hg).
  cbn [Parser.capture_map]. rewrite Hg. cbn [option_map of_option].
  intros [= H]. now apply normalizeMachineStatus_nonempty in H.
Qed.


(** X22: the webhook keeps the machine statuses valid: when every machine
    of the table has one of the four statuses, it still has after any
    message the webhook processes, of whatever kind. *)
Theorem webhook_keeps_machine_statuses_valid now msg w u w' :
  machine_statuses_valid (Webhook.machines w) ->
  Webhook.processIncomingMessage now msg w = Ok (u, w') ->
  machine_statuses_valid (Webhook.machines w').
Proof.
  intros Hv. unfold Webhook.processIncomingMessage.
  destruct (negb (Js.truthy (Js.trim msg))); [now intros [= <- <-]|].
  destruct (Parser.detectIntent (JString msg)).
  - destruct (Parser.parseMachineUpdate (JString msg)) as [p|] eqn:Hp;
      [|now intros [= <- <-]].
    destruct (Js.truthy (Parser.pm_machine_id p)); [|now intros [= <- <-]].
    destruct (Machines.updateMachine now _ _ _) as [[m t]|e] eqn:Hok;
      [|discriminate].
    cbn. intros [= <- <-]. cbn [Webhook.machines].
    exact (machines_stay_valid _ _ _ _ _ _ Hv
             (parsed_machine_status msg p Hp) Hok).
  - destruct (SafetyParser.parseSafetyUpdate (JString msg)) as [p|];
      [|now intros [= <- <-]].
    destruct (Js.truthy (SafetyParser.ps_area_name p));
      [|now intros [= <- <-]].
    destruct (Safety.updateSafetyArea now _ _ _) as [[a t]|e]; [|discriminate].
    cbn. now intros [= <- <-].
  - destruct (Parser.parseOrderUpdate (JString msg)) as [p|];
      [|now intros [= <- <-]].
    destruct (Js.truthy (Parser.po_order_id p)); [|now intros [= <- <-]].
    destruct (Orders.updateOrder now _ _ _) as [[o t]|e]; [|discriminate].
    cbn. now intros [= <- <-].
  - now intros [= <- <-].
Qed.

Lemma webhook_keeps_machine_statuses_valid_witness :
  machine_statuses_valid (Webhook.machines floor_world) /\
  Webhook.processIncomingMessage 2000 "M02 STATUS=Idle" floor_world
    = Ok (Webhook.UpdatedMachine lathe_by_message,
          {| Webhook.machines := <["M02" := lathe_by_message]> floor;
             Webhook.areas := ∅; Webhook.orders := ∅ |}) /\
  machine_statuses_valid (<["M02" := lathe_by_message]> floor).
Proof.
  split; [exact floor_statuses_valid|].
  assert (Hok : Webhook.processIncomingMessage 2000 "M02 STATUS=Idle"
                  floor_world
                = Ok (Webhook.UpdatedMachine lathe_by_message,
                      {| Webhook.machines := <["M02" := lathe_by_message]> floor;
                         Webhook.areas := ∅; Webhook.orders := ∅ |}))
    by (vm_compute; reflexivity).
  split; [exact Hok|].
  exact (webhook_keeps_machine_statuses_valid
           2000 "M02 STATUS=Idle" floor_world _ _
           floor_statuses_valid Hok).
Defined.
